(** * transservice: ledger reader, quote client and audit logger

    A shallow embedding of the two Go packages of the transaction
    service:

    - [dbutils] (queries against the relational store: available balance
      and shares, the reservations, the quote client), and
    - [logger] (the append-only audit log with its schema validation and
      the monetary formatter).

    Go's [int] is 64 bits wide; it is modelled as [Z] together with the
    range check wherever the code converts into it.  Strings are byte
    strings.  The relational store is a record of tables, each table a
    list of rows; the file system is a finite map from paths to files. *)

From Stdlib Require Import ZArith Ascii String List Bool Lia.
From Stdlib Require Import Floats.PrimFloat.
From stdpp Require Import base option list gmap strings sorting.

Local Open Scope string_scope.
Local Open Scope Z_scope.

(** ** Go basics shared by both packages *)

Module Go.

(** A function result [(v, err)]. *)
Inductive result (E A : Type) : Type :=
| Ok (v : A)
| Err (e : E).
Arguments Ok {E A} v.
Arguments Err {E A} e.

Definition minInt : Z := - 2 ^ 63.
Definition maxInt : Z := 2 ^ 63 - 1.
Definition maxUint64 : Z := 2 ^ 64 - 1.

Definition is_int (z : Z) : bool := (minInt <=? z) && (z <=? maxInt).

(** The bytes of [s] before the first separator, the whole string
    when there is none. *)
Fixpoint first_field (sep : ascii) (s : string) : string :=
  match s with
  | EmptyString => EmptyString
  | String c rest =>
      if Ascii.eqb c sep then EmptyString else String c (first_field sep rest)
  end.

End Go.

Import Go.

(** ** Package strconv and the [%d] verb *)

Module strconv.

Inductive NumErrKind := ErrSyntax | ErrRange.

Record NumError := { Func : string; Num : string; Kind : NumErrKind }.

Definition is_digit (c : ascii) : bool :=
  let n := Z.of_N (N_of_ascii c) in (48 <=? n) && (n <=? 57).

Definition digit_val (c : ascii) : Z := Z.of_N (N_of_ascii c) - 48.

(** The digit loop of [ParseUint] in base 10 with [bitSize] 64: a byte
    that is no digit is a syntax error at once, an overflow a range
    error at once. *)
Fixpoint ParseUint_digits (s : string) (n : Z) : result NumErrKind Z :=
  match s with
  | EmptyString => Ok n
  | String c rest =>
      if is_digit c then
        if maxUint64 / 10 + 1 <=? n then Err ErrRange
        else
          let n1 := n * 10 + digit_val c in
          if maxUint64 <? n1 then Err ErrRange else ParseUint_digits rest n1
      else Err ErrSyntax
  end.

Definition ParseUint (s : string) : result NumErrKind Z :=
  match s with
  | EmptyString => Err ErrSyntax
  | _ => ParseUint_digits s 0
  end.

(** [ParseInt(s, 10, 0)]: an optional sign, then [ParseUint], then the
    signed range. *)
Definition ParseInt (s : string) : result NumErrKind Z :=
  match s with
  | EmptyString => Err ErrSyntax
  | String c rest =>
      let neg := Ascii.eqb c "-" in
      let body := if Ascii.eqb c "+" || neg then rest else s in
      match ParseUint body with
      | Err k => Err k
      | Ok un =>
          if negb neg && (2 ^ 63 <=? un) then Err ErrRange
          else if neg && (2 ^ 63 <? un) then Err ErrRange
          else Ok (if neg then - un else un)
      end
  end.

(** [Atoi]: the short-string fast path and [ParseInt] accept the same
    strings with the same values, so one definition covers both. *)
Definition Atoi (s : string) : result NumError Z :=
  match ParseInt s with
  | Ok v => Ok v
  | Err k => Err {| Func := "Atoi"; Num := s; Kind := k |}
  end.

Definition digit_char (d : Z) : ascii := ascii_of_N (Z.to_N (48 + d)).

(** Decimal digits of a non-negative number, least significant digit
    produced first and pushed in front of [acc]. *)
Fixpoint format_digits (fuel : nat) (n : Z) (acc : string) : string :=
  match fuel with
  | O => acc
  | S fuel' =>
      let acc' := String (digit_char (n mod 10)) acc in
      if n <? 10 then acc' else format_digits fuel' (n / 10) acc'
  end.

(** The power of ten just above [n]: ten to the number of digits
    [format_digits] writes for it. *)
Fixpoint scale (fuel : nat) (n : Z) : Z :=
  match fuel with
  | O => 1
  | S fuel' => if n <? 10 then 10 else 10 * scale fuel' (n / 10)
  end.

(** [FormatInt(n, 10)], which is what [%d] prints; 20 digits cover
    every 64-bit value. *)
Definition FormatInt (n : Z) : string :=
  if n <? 0 then String "-" (format_digits 20 (- n) EmptyString)
  else format_digits 20 n EmptyString.

End strconv.

(** ** The relational store *)

(** Modelled from the spec: package [models] (the [OrderType] constants
    [BUY] and [SELL] and the [Reservation] struct) is not part of the
    sources; the order type is the two-valued type of the data model and
    the struct has one field per scanned column. *)
Module models.

Inductive OrderType := BUY | SELL.

#[global] Instance OrderType_eq_dec : EqDecision OrderType.
Proof. solve_decision. Defined.

Record Reservation := {
  ID : Z;
  Username : string;
  Symbol : string;
  Shares : Z;
  Amount : Z;
  Order : OrderType;
  Time : Z
}.

(** Modelled from the spec: the [User] struct, one field per column
    [QueryUser] scans. *)
Module User.
Record User := { ID : Z; Username : string; Money : Z }.
End User.

(** Modelled from the spec: the [Stock] struct, one field per column
    [QueryUserStock] scans. *)
Module Stock.
End Stock.

End models.

(** Modelled from the spec: the schema is not part of the sources; the
    tables and their columns are those the queries name, with integer
    money, shares, amounts and times (the ledger's minor units), and
    nullable integer shares and nullable floating-point amount and
    trigger price on triggers. *)
Module users.
Record row := { uid : Z; username : string; money : Z }.
End users.

Module stocks.
Record row := { sid : Z; username : string; symbol : string; shares : Z }.
End stocks.

Module reservations.
Record row := {
  rid : Z;
  username : string;
  symbol : string;
  shares : Z;
  amount : Z;
  type : models.OrderType;
  time : Z
}.
End reservations.

Module triggers.
Record row := {
  tid : Z;
  username : string;
  symbol : string;
  type : string;
  amount : option float;
  shares : option Z;
  trigger_price : option float;
  executable : bool;
  time : Z
}.
End triggers.

Module sql.

Record DB := {
  USERS : list users.row;
  STOCKS : list stocks.row;
  RESERVATIONS : list reservations.row;
  TRIGGERS : list triggers.row
}.

(** What [QueryRow(...).Scan(...)] can report. *)
Inductive error :=
| ErrNoRows                (* the query selected no row *)
| ErrScanNULL              (* converting NULL to int is unsupported *)
| ErrScanRange             (* the value does not fit the destination *)
| ErrSubqueryRows.         (* more than one row returned by a subquery
                              used as an expression *)

(** A nullable integer value: [None] is NULL. *)
Definition value := option Z.

(** [SUM(col)]: NULL over no rows. *)
Definition SUM (col : list Z) : value :=
  match col with
  | [] => None
  | _ => Some (foldr Z.add 0 col)
  end.

Definition COALESCE (v : value) (d : Z) : value :=
  match v with
  | Some x => Some x
  | None => Some d
  end.

(** [a - b]: NULL as soon as one operand is. *)
Definition minus (a b : value) : value :=
  match a, b with
  | Some x, Some y => Some (x - y)
  | _, _ => None
  end.

(** A subquery used as an expression: NULL over no rows, the value
    over one row, an error of the statement over more. *)
Definition scalar (col : list Z) : result error value :=
  match col with
  | [] => Ok None
  | [x] => Ok (Some x)
  | _ => Err ErrSubqueryRows
  end.

(** [Scan] of one column into an [*int]. *)
Definition Scan_int (v : value) : result error Z :=
  match v with
  | None => Err ErrScanNULL
  | Some z => if is_int z then Ok z else Err ErrScanRange
  end.

End sql.

(** ** Package dbutils *)

Module dbutils.

Import sql.

(** [QueryUserAvailableBalance]: one statement, the user's money as a
    scalar subquery minus the coalesced sum of the amounts of the
    user's reservations of type [models.BUY], scanned into an [int].
    The statement always selects exactly one row. *)
Definition QueryUserAvailableBalance (db : DB) (username : string)
  : result error Z :=
  match scalar (users.money <$>
                  filter (λ r, users.username r = username) (USERS db)) with
  | Err e => Err e
  | Ok money =>
      Scan_int
        (minus money
           (COALESCE
              (SUM (reservations.amount <$>
                      filter (λ r, reservations.username r = username
                                   ∧ reservations.type r = models.BUY)
                        (RESERVATIONS db)))
              0))
  end.

(** [QueryUserAvailableShares]: the coalesced sum of the shares of the
    stock rows of [(username, symbol)] minus the coalesced sum of the
    shares of the reservations selected by [username = $1 and
    type = $3]; the symbol, [$2], occurs in the first subquery only. *)
Definition QueryUserAvailableShares (db : DB) (username symbol : string)
  : result error Z :=
  Scan_int
    (minus
       (COALESCE
          (SUM (stocks.shares <$>
                  filter (λ r, stocks.username r = username
                               ∧ stocks.symbol r = symbol)
                    (STOCKS db)))
          0)
       (COALESCE
          (SUM (reservations.shares <$>
                  filter (λ r, reservations.username r = username
                               ∧ reservations.type r = models.SELL)
                    (RESERVATIONS db)))
          0)).

(** [ORDER BY (time) DESC, rid DESC]: [r1] is listed no later than
    [r2]. *)
Definition newer (r1 r2 : reservations.row) : Prop :=
  reservations.time r2 < reservations.time r1
  ∨ (reservations.time r1 = reservations.time r2
     ∧ reservations.rid r2 ≤ reservations.rid r1).

#[global] Instance newer_dec : RelDecision newer.
Proof. intros r1 r2. unfold newer. apply _. Defined.

Definition scanReservation (r : reservations.row) : models.Reservation :=
  {| models.ID := reservations.rid r;
     models.Username := reservations.username r;
     models.Symbol := reservations.symbol r;
     models.Shares := reservations.shares r;
     models.Amount := reservations.amount r;
     models.Order := reservations.type r;
     models.Time := reservations.time r |}.

(** [QueryLastReservation]: the first row, if any, of the user's
    reservations of the given type in the order above. *)
Definition QueryLastReservation (db : DB) (username : string)
    (resType : models.OrderType) : result error models.Reservation :=
  match merge_sort newer
          (filter (λ r, reservations.username r = username
                        ∧ reservations.type r = resType)
             (RESERVATIONS db)) with
  | [] => Err ErrNoRows
  | r :: _ => Ok (scanReservation r)
  end.

(** *** The quote client *)

Inductive Event :=
| Println (msg : string).         (* log.Println *)

(** What the quote client runs against: the store, the process
    environment, the network (a GET answers with a connection error,
    or with the body read so far and the error of the read, if any)
    and the trace of what the process has logged. *)
Record World := {
  db : DB;
  environ : gmap string string;
  http_Get : string → result string (string * option string);
  trace : list Event
}.

Definition emit (e : Event) (w : World) : World :=
  {| db := db w; environ := environ w; http_Get := http_Get w;
     trace := trace w ++ [e] |}.

Definition Getenv (w : World) (key : string) : string :=
  default EmptyString (environ w !! key).

Definition GetQuoteServerURL (w : World) : string :=
  let port := Getenv w "QUOTE_SERVER_PORT" in
  let host := Getenv w "QUOTE_SERVER_HOST" in
  "http://" ++ host ++ ":" ++ port.

(** [QueryQuote] returns [(body, err)]. *)
Definition QueryQuote (username stock : string) (w : World)
  : string * option string * World :=
  let URL := GetQuoteServerURL w in
  let w := emit (Println URL) w in
  match http_Get w (URL ++ "/api/getQuote/" ++ username ++ "/" ++ stock) with
  | Err err => (EmptyString, Some err, w)
  | Ok (body, err) => (body, err, emit (Println body) w)
  end.

(** [QueryUser]: the first row of [users] with the user name, scanned
    column by column; the no-rows error when there is none. *)
Definition QueryUser (db : DB) (username : string)
  : result error models.User.User :=
  match filter (λ r, users.username r = username) (USERS db) with
  | [] => Err ErrNoRows
  | r :: _ =>
      Ok {| models.User.ID := users.uid r;
            models.User.Username := users.username r;
            models.User.Money := users.money r |}
  end.


(** [QueryReservation]: the first row of [reservations] with the id. *)
Definition QueryReservation (db : DB) (rid : Z)
  : result error models.Reservation :=
  match filter (λ r, reservations.rid r = rid) (RESERVATIONS db) with
  | [] => Err ErrNoRows
  | r :: _ => Ok (scanReservation r)
  end.

End dbutils.

(** ** Package os: the files the logger touches *)

Module os.

Inductive Errno := ENOENT | EACCES | EISDIR.

Record PathError := { Op : string; Path : string; Errno_of : Errno }.

Definition Errno_Error (e : Errno) : string :=
  match e with
  | ENOENT => "no such file or directory"
  | EACCES => "permission denied"
  | EISDIR => "is a directory"
  end.

Definition PathError_Error (e : PathError) : string :=
  Op e ++ " " ++ Path e ++ ": " ++ Errno_Error (Errno_of e).

Inductive Node :=
| Regular (data : string) (readable writable : bool)
| Directory.

(** The working directory: its entries and whether the process may
    add entries to it. *)
Record FS := { entries : gmap string Node; dir_writable : bool }.

(** [OpenFile(name, O_APPEND|O_WRONLY, 0600)]: no [O_CREATE], so the
    file has to exist. The handle is the path. *)
Definition OpenFile_append (fs : FS) (name : string) : result PathError string :=
  match entries fs !! name with
  | None => Err {| Op := "open"; Path := name; Errno_of := ENOENT |}
  | Some Directory => Err {| Op := "open"; Path := name; Errno_of := EISDIR |}
  | Some (Regular _ _ w) =>
      if w then Ok name
      else Err {| Op := "open"; Path := name; Errno_of := EACCES |}
  end.

(** [file.Write(b)] on a handle opened by [OpenFile_append]: the
    bytes go after the current end of the file. *)
Definition Write (fs : FS) (file : string) (b : string) : FS :=
  match entries fs !! file with
  | Some (Regular data r w) =>
      {| entries := <[file := Regular (data ++ b) r w]> (entries fs);
         dir_writable := dir_writable fs |}
  | _ => fs
  end.

(** [Open(name)], read-only. *)
Definition Open (fs : FS) (name : string) : result PathError string :=
  match entries fs !! name with
  | None => Err {| Op := "open"; Path := name; Errno_of := ENOENT |}
  | Some Directory => Ok name
  | Some (Regular _ r _) =>
      if r then Ok name
      else Err {| Op := "open"; Path := name; Errno_of := EACCES |}
  end.

(** [ioutil.ReadAll] on a handle opened by [Open]. *)
Definition ReadAll (fs : FS) (file : string) : result PathError string :=
  match entries fs !! file with
  | Some (Regular data _ _) => Ok data
  | _ => Err {| Op := "read"; Path := file; Errno_of := EISDIR |}
  end.

(** [Create(name)]: [OpenFile(name, O_RDWR|O_CREATE|O_TRUNC, 0666)]. *)
Definition Create (fs : FS) (name : string) : result PathError FS :=
  match entries fs !! name with
  | None =>
      if dir_writable fs then
        Ok {| entries := <[name := Regular EmptyString true true]> (entries fs);
              dir_writable := dir_writable fs |}
      else Err {| Op := "open"; Path := name; Errno_of := EACCES |}
  | Some Directory => Err {| Op := "open"; Path := name; Errno_of := EISDIR |}
  | Some (Regular _ r w) =>
      if r && w then
        Ok {| entries := <[name := Regular EmptyString r w]> (entries fs);
              dir_writable := dir_writable fs |}
      else Err {| Op := "open"; Path := name; Errno_of := EACCES |}
  end.

End os.

(** ** Package logger *)

Module logger.

(** [type Command string] *)
Definition Command := string.

Definition ADD : Command := "ADD".
Definition QUOTE : Command := "QUOTE".
Definition BUY : Command := "BUY".
Definition COMMIT_BUY : Command := "COMMIT_BUY".
Definition CANCEL_BUY : Command := "CANCEL_BUY".
Definition SELL : Command := "SELL".
Definition COMMIT_SELL : Command := "COMMIT_SELL".
Definition CANCEL_SELL : Command := "CANCEL_SELL".
Definition SET_BUY_AMOUNT : Command := "SET_BUY_AMOUNT".
Definition CANCEL_SET_BUY : Command := "CANCEL_SET_BUY".
Definition SET_BUY_TRIGGER : Command := "SET_BUY_TRIGGER".
Definition SET_SELL_AMOUNT : Command := "SET_SELL_AMOUNT".
Definition SET_SELL_TRIGGER : Command := "SET_SELL_TRIGGER".
Definition CANCEL_SET_SELL : Command := "CANCEL_SET_SELL".
Definition DUMPLOG : Command := "DUMPLOG".
Definition DISPLAY_SUMMARY : Command := "DISPLAY_SUMMARY".

Definition validCommands : gmap string bool :=
  list_to_map
    [ (ADD, true); (QUOTE, true); (BUY, true); (COMMIT_BUY, true);
      (CANCEL_BUY, true); (SELL, true); (COMMIT_SELL, true);
      (CANCEL_SELL, true); (SET_BUY_AMOUNT, true); (CANCEL_SET_BUY, true);
      (SET_BUY_TRIGGER, true); (SET_SELL_AMOUNT, true);
      (SET_SELL_TRIGGER, true); (CANCEL_SET_SELL, true); (DUMPLOG, true);
      (DISPLAY_SUMMARY, true) ].

Record UserCommandType := {
  uc_Timestamp : string;
  uc_Server : string;
  uc_TransactionNumber : string;
  uc_Command : Command;
  uc_Username : string;
  uc_Symbol : string;
  uc_Filename : string;
  uc_Funds : string
}.

Record AccountTransactionType := {
  at_Timestamp : string;
  at_Server : string;
  at_TransactionNumber : string;
  at_Command : string;
  at_Username : string;
  at_Funds : string
}.

Record SystemEventType := {
  se_Timestamp : string;
  se_Server : string;
  se_TransactionNumber : string;
  se_Command : string;
  se_Username : string;
  se_StockSymbol : string;
  se_Funds : string
}.

Record QuoteServerType := {
  qs_Timestamp : string;
  qs_Server : string;
  qs_TransactionNumber : string;
  qs_QuoteServerTime : string;
  qs_Username : string;
  qs_StockSymbol : string;
  qs_Price : string;
  qs_CryptoKey : string
}.

Record ErrorEventType := {
  ee_Timestamp : string;
  ee_Server : string;
  ee_TransactionNumber : string;
  ee_Command : string;
  ee_Username : string;
  ee_StockSymbol : string;
  ee_Funds : string;
  ee_ErrorMessage : string
}.

(** The five pointers of [LogType]; [None] is nil. *)
Record LogType := {
  XMLName : string;
  UserCommand : option UserCommandType;
  AccountTransaction : option AccountTransactionType;
  SystemEvent : option SystemEventType;
  QuoteServer : option QuoteServerType;
  ErrorEvent : option ErrorEventType
}.

Definition server : string := "transaction".
Definition logfile : string := "log.xsd".
Definition schemaFile : string := "logger/schema.xsd".
Definition prefix : string := EmptyString.
Definition indent : string := String (ascii_of_nat 9) EmptyString.

(** The libraries behind the log: [encoding/xml] and the libxml2
    binding.  Their errors are carried as their messages.  [Validate]
    answers [None] for a valid document and the list of
    [SchemaValidationError.Errors()] otherwise. *)
Class XmlLib := {
  Schema : Type;
  Document : Type;
  MarshalIndent : LogType → string → string → result string string;
  xsd_Parse : string → result string Schema;
  libxml2_Parse : string → result string Document;
  Validate : Schema → Document → option (list string)
}.

Inductive Event :=
| FileWrite (file : string) (b : string)     (* file.Write *)
| Printf (msg : string).                     (* fmt.Printf *)

(** The logger's surroundings: the files, the clock ([UnixNano]) and
    the trace of writes and prints in the order they happened. *)
Record World := {
  fs : os.FS;
  now : Z;
  trace : list Event
}.

Inductive panic :=
| panic_NumError (e : strconv.NumError)
| panic_PathError (e : os.PathError)
| panic_error (msg : string).

(** A call either returns or panics; the world is the one reached. *)
Inductive outcome (A : Type) :=
| Returned (a : A) (w : World)
| Panicked (p : panic) (w : World).
Arguments Returned {A} a w.
Arguments Panicked {A} p w.

Definition world_of {A} (o : outcome A) : World :=
  match o with
  | Returned _ w => w
  | Panicked _ w => w
  end.

Definition print (msg : string) (w : World) : World :=
  {| fs := fs w; now := now w; trace := trace w ++ [Printf msg] |}.

Definition write (file : string) (b : string) (w : World) : World :=
  {| fs := os.Write (fs w) file b; now := now w;
     trace := trace w ++ [FileWrite file b] |}.

(** The content of the log file, if it is there. *)
Definition log_content (w : World) : option string :=
  match os.entries (fs w) !! logfile with
  | Some (os.Regular data _ _) => Some data
  | _ => None
  end.

(** [formatBalance]: [Err] is the panic. *)
Definition formatBalance (balance : string) : result strconv.NumError string :=
  match strconv.Atoi balance with
  | Err err => Err err
  | Ok b =>
      Ok (strconv.FormatInt (Z.quot b 100) ++ "."
            ++ strconv.FormatInt (Z.rem b 100))
  end.

Definition getUnixTimestamp (w : World) : string :=
  strconv.FormatInt (Z.quot (now w) 1000000).

Definition validateSchema `{XmlLib} (ele : string) (w : World) : World :=
  match os.Open (fs w) schemaFile with
  | Err err => print ("failed to open file: " ++ os.PathError_Error err) w
  | Ok schema =>
      match os.ReadAll (fs w) schema with
      | Err err => print ("failed to read file: " ++ os.PathError_Error err) w
      | Ok schemabuf =>
          match xsd_Parse schemabuf with
          | Err err => print ("failed to parse XSD: " ++ err) w
          | Ok s =>
              match libxml2_Parse ele with
              | Err err => print ("failed to parse XML: " ++ err) w
              | Ok d =>
                  match Validate s d with
                  | Some errs =>
                      fold_left (λ w e, print ("error: " ++ e) w) errs w
                  | None => print "xml validation successful!" w
                  end
              end
          end
      end
  end.

(** The [UserCommandType] value [LogCommand] builds: a field keeps the
    zero value when its key is not in [vars]. *)
Definition userCommand (timestamp : string) (command : Command)
    (vars : gmap string string) (funds : string) : UserCommandType :=
  {| uc_Timestamp := timestamp;
     uc_Server := server;
     uc_TransactionNumber := default EmptyString (vars !! "trans");
     uc_Command := command;
     uc_Username := default EmptyString (vars !! "username");
     uc_Symbol := default EmptyString (vars !! "symbol");
     uc_Filename := default EmptyString (vars !! "filename");
     uc_Funds := funds |}.

Definition LogCommand `{XmlLib} (command : Command) (vars : gmap string string)
    (w : World) : outcome unit :=
  match validCommands !! command with
  | None => Returned tt w
  | Some _ =>
      match os.OpenFile_append (fs w) logfile with
      | Err err => Panicked (panic_PathError err) w
      | Ok file =>
          let timestamp := getUnixTimestamp w in
          match
            match vars !! "amount" with
            | Some val => formatBalance val
            | None => Ok EmptyString
            end
          with
          | Err err => Panicked (panic_NumError err) w
          | Ok funds =>
              let v := userCommand timestamp command vars funds in
              let logEntry :=
                {| XMLName := EmptyString;
                   UserCommand := Some v;
                   AccountTransaction := None; SystemEvent := None;
                   QuoteServer := None; ErrorEvent := None |} in
              match MarshalIndent logEntry prefix indent with
              | Err err => Panicked (panic_error err) w
              | Ok output =>
                  Returned tt (validateSchema output (write file output w))
              end
          end
      end
  end.

Definition quoteServer (timestamp username price stocksymbol quoteTimestamp
    cryptokey trans : string) : QuoteServerType :=
  {| qs_Timestamp := timestamp;
     qs_Server := server;
     qs_TransactionNumber := trans;
     qs_QuoteServerTime := quoteTimestamp;
     qs_Username := username;
     qs_StockSymbol := stocksymbol;
     qs_Price := price;
     qs_CryptoKey := cryptokey |}.

Definition LogQuoteServ `{XmlLib} (username price stocksymbol quoteTimestamp
    cryptokey trans : string) (w : World) : outcome unit :=
  match os.OpenFile_append (fs w) logfile with
  | Err err => Panicked (panic_PathError err) w
  | Ok file =>
      let timestamp := getUnixTimestamp w in
      let v := quoteServer timestamp username price stocksymbol
                 quoteTimestamp cryptokey trans in
      let logEntry :=
        {| XMLName := EmptyString;
           UserCommand := None; AccountTransaction := None;
           SystemEvent := None; QuoteServer := Some v;
           ErrorEvent := None |} in
      match MarshalIndent logEntry prefix indent with
      | Err err => Panicked (panic_error err) w
      | Ok output => Returned tt (validateSchema output (write file output w))
      end
  end.

(** [InitLogger]: the error of [os.Create] is dropped. *)
Definition InitLogger (w : World) : World :=
  match os.Create (fs w) logfile with
  | Err _ => w
  | Ok fs' => {| fs := fs'; now := now w; trace := trace w |}
  end.

End logger.

(** ** What the specification says, in its own words *)

Module Spec.

Import sql.

(** "confirmed cash": the money of the user's row, when the user has
    exactly one. *)
Definition confirmed_cash (db : DB) (u : string) (m : Z) : Prop :=
  ∃ r, filter (λ r, users.username r = u) (USERS db) = [r] ∧ users.money r = m.

Definition user_exists (db : DB) (u : string) : Prop :=
  ∃ r, r ∈ USERS db ∧ users.username r = u.

(** "the sum of all outstanding BUY-type reservation amounts for that
    user" *)
Definition reserved_amount (db : DB) (u : string) : Z :=
  foldr (λ r acc,
           if decide (reservations.username r = u
                      ∧ reservations.type r = models.BUY)
           then reservations.amount r + acc else acc)
    0 (RESERVATIONS db).

(** "confirmed shares for (username, symbol)" *)
Definition confirmed_shares (db : DB) (u s : string) : Z :=
  foldr (λ r acc,
           if decide (stocks.username r = u ∧ stocks.symbol r = s)
           then stocks.shares r + acc else acc)
    0 (STOCKS db).

(** "the sum of outstanding SELL-type reservation shares for that
    (username, symbol)" *)
Definition reserved_shares (db : DB) (u s : string) : Z :=
  foldr (λ r acc,
           if decide (reservations.username r = u
                      ∧ reservations.symbol r = s
                      ∧ reservations.type r = models.SELL)
           then reservations.shares r + acc else acc)
    0 (RESERVATIONS db).

(** [AvailableShares(username, symbol)] as the specification words it. *)
Definition AvailableShares (db : DB) (u s : string) : Z :=
  confirmed_shares db u s - reserved_shares db u s.

(** [NotFound], as the store reports it: the query selected no row. *)
Definition NotFound : error := ErrNoRows.

(** The reservations [LastReservation(u, t)] chooses among. *)
Definition candidate (db : DB) (u : string) (t : models.OrderType)
    (r : reservations.row) : Prop :=
  r ∈ RESERVATIONS db ∧ reservations.username r = u ∧ reservations.type r = t.

(** "the fixed recognized set" of commands *)
Definition recognized : list string :=
  [ "ADD"; "QUOTE"; "BUY"; "COMMIT_BUY"; "CANCEL_BUY"; "SELL"; "COMMIT_SELL";
    "CANCEL_SELL"; "SET_BUY_AMOUNT"; "CANCEL_SET_BUY"; "SET_BUY_TRIGGER";
    "SET_SELL_AMOUNT"; "SET_SELL_TRIGGER"; "CANCEL_SET_SELL"; "DUMPLOG";
    "DISPLAY_SUMMARY" ].

(** An append of [output] to the log: the call returns, the log file
    holds what it held followed by [output], and the trace grows by
    the write followed by the prints [msgs], in that order. *)
Definition appended (w : logger.World) (output : string) (msgs : list string)
    (o : logger.outcome unit) : Prop :=
  ∃ w' data,
    o = logger.Returned tt w'
    ∧ logger.log_content w = Some data
    ∧ logger.log_content w' = Some (data ++ output)
    ∧ logger.trace w'
      = (logger.trace w
           ++ logger.FileWrite logger.logfile output :: (logger.Printf <$> msgs))%list.



(** The document [LogQuoteServ] marshals. *)
Definition quoteEntry (w : logger.World) (username price stocksymbol
    quoteTimestamp cryptokey trans : string) : logger.LogType :=
  {| logger.XMLName := EmptyString;
     logger.UserCommand := None;
     logger.AccountTransaction := None;
     logger.SystemEvent := None;
     logger.QuoteServer :=
       Some (logger.quoteServer (logger.getUnixTimestamp w) username price
               stocksymbol quoteTimestamp cryptokey trans);
     logger.ErrorEvent := None |}.

(** The document [LogCommand] marshals. *)
Definition commandEntry (w : logger.World) (command : logger.Command)
    (vars : gmap string string) (funds : string) : logger.LogType :=
  {| logger.XMLName := EmptyString;
     logger.UserCommand :=
       Some (logger.userCommand (logger.getUnixTimestamp w) command vars funds);
     logger.AccountTransaction := None;
     logger.SystemEvent := None;
     logger.QuoteServer := None;
     logger.ErrorEvent := None |}.

(** The funds field of a command: the formatted amount, empty without
    an amount; [Err] when the amount does not format. *)
Definition fundsOf (vars : gmap string string)
  : result strconv.NumError string :=
  match vars !! "amount" with
  | Some val => logger.formatBalance val
  | None => Ok EmptyString
  end.

(** A world after the prints [msgs]. *)
Definition printed (msgs : list string) (w : logger.World) : logger.World :=
  {| logger.fs := logger.fs w;
     logger.now := logger.now w;
     logger.trace := logger.trace w ++ (logger.Printf <$> msgs) |}.

(** The panic of opening a log file that is not there. *)
Definition no_log_file : logger.panic :=
  logger.panic_PathError
    {| os.Op := "open"; os.Path := logger.logfile; os.Errno_of := os.ENOENT |}.

(** The store after one more reservation row has been inserted. *)
Definition with_reservation (db : DB) (r : reservations.row) : DB :=
  {| USERS := USERS db;
     STOCKS := STOCKS db;
     RESERVATIONS := RESERVATIONS db ++ [r];
     TRIGGERS := TRIGGERS db |}.

(** No two reservation rows share an id. *)
Definition unique_rids (db : DB) : Prop :=
  ∀ r1 r2, r1 ∈ RESERVATIONS db → r2 ∈ RESERVATIONS db →
           reservations.rid r1 = reservations.rid r2 → r1 = r2.

(** The world with the lines [msgs] added to what it has logged. *)
Definition logged (msgs : list string) (w : dbutils.World) : dbutils.World :=
  {| dbutils.db := dbutils.db w;
     dbutils.environ := dbutils.environ w;
     dbutils.http_Get := dbutils.http_Get w;
     dbutils.trace := dbutils.trace w ++ (dbutils.Println <$> msgs) |}.

(** "GET /api/getQuote/{username}/{stock}" at the quote service of the
    given host and port. *)
Definition quoteURL (host port username stock : string) : string :=
  "http://" ++ host ++ ":" ++ port ++ "/api/getQuote/" ++ username ++ "/"
    ++ stock.

(** Every byte of a string passes a test. *)
Fixpoint all_chars (P : ascii → bool) (s : string) : bool :=
  match s with
  | EmptyString => true
  | String c rest => P c && all_chars P rest
  end.

(** A digit or a minus sign. *)
Definition numeric (c : ascii) : bool :=
  strconv.is_digit c || Ascii.eqb c "-".

(** A decimal numeral: at least one byte, all of them digits. *)
Definition numeral (s : string) : Prop :=
  s ≠ EmptyString ∧ all_chars strconv.is_digit s = true.

(** The keys of the field map [LogCommand] looks up. *)
Definition fields_read : list string :=
  [ "trans"; "username"; "symbol"; "filename"; "amount" ].

End Spec.

(** ** Concrete stores, worlds and library doubles used in the examples *)

Module Examples.

Import sql.

Definition al : users.row :=
  {| users.uid := 1; users.username := "al"; users.money := 10000 |}.

Definition reservation (rid : Z) (symbol : string) (shares amount : Z)
    (t : models.OrderType) (time : Z) : reservations.row :=
  {| reservations.rid := rid; reservations.username := "al";
     reservations.symbol := symbol; reservations.shares := shares;
     reservations.amount := amount; reservations.type := t;
     reservations.time := time |}.

(** al owns 10 shares of AAA and has 3 shares of BBB reserved for a
    sale. *)
Definition db_shares : DB :=
  {| USERS := [al];
     STOCKS := [ {| stocks.sid := 1; stocks.username := "al";
                    stocks.symbol := "AAA"; stocks.shares := 10 |};
                 {| stocks.sid := 2; stocks.username := "al";
                    stocks.symbol := "BBB"; stocks.shares := 5 |} ];
     RESERVATIONS := [ reservation 1 "BBB" 3 0 models.SELL 100 ];
     TRIGGERS := [] |}.

(** al has 100.00 and BUY reservations of 40.00 and 70.00; 12 shares
    of AAA are reserved for sale against 10 owned. *)
Definition db_overdrawn : DB :=
  {| USERS := [al];
     STOCKS := [ {| stocks.sid := 1; stocks.username := "al";
                    stocks.symbol := "AAA"; stocks.shares := 10 |} ];
     RESERVATIONS := [ reservation 1 "AAA" 0 4000 models.BUY 100;
                       reservation 2 "AAA" 0 7000 models.BUY 100;
                       reservation 3 "AAA" 12 0 models.SELL 101 ];
     TRIGGERS := [] |}.

(** A double for the XML libraries: the document is the command or
    the price between [<log>] tags, every schema and document parses,
    and the validator answers [verdict]. *)
Definition stubXml (verdict : option (list string)) : logger.XmlLib :=
  {| logger.Schema := string;
     logger.Document := string;
     logger.MarshalIndent := λ e _ _,
       Ok ("<log>"
           ++ match logger.UserCommand e, logger.QuoteServer e with
              | Some v, _ => logger.uc_Command v
              | None, Some v => logger.qs_Price v
              | None, None => EmptyString
              end
           ++ "</log>");
     logger.xsd_Parse := Ok;
     logger.libxml2_Parse := Ok;
     logger.Validate := λ _ _, verdict |}.

Definition world (entries : gmap string os.Node) (dir_writable : bool)
  : logger.World :=
  {| logger.fs := {| os.entries := entries; os.dir_writable := dir_writable |};
     logger.now := 1700000000123456789;
     logger.trace := [] |}.

(** Log and schema in place, the log holding one earlier record. *)
Definition running : logger.World :=
  world (<[logger.logfile := os.Regular "<log>old</log>" true true]>
           (<[logger.schemaFile := os.Regular "<xs:schema/>" true true]> ∅))
    true.

(** Before [InitLogger]: no log file. *)
Definition fresh : logger.World :=
  world (<[logger.schemaFile := os.Regular "<xs:schema/>" true true]> ∅) true.

(** No log file and a directory the process may not write to. *)
Definition locked : logger.World := world ∅ false.

(** A quote service at quotes:4444 that answers for AAA and refuses
    every other request. *)
Definition quoteService : dbutils.World :=
  {| dbutils.db := {| USERS := [al]; STOCKS := []; RESERVATIONS := [];
                      TRIGGERS := [] |};
     dbutils.environ :=
       <["QUOTE_SERVER_HOST" := "quotes"]> (<["QUOTE_SERVER_PORT" := "4444"]> ∅);
     dbutils.http_Get := λ url,
       if String.eqb url "http://quotes:4444/api/getQuote/al/AAA"
       then Ok ("9.50,AAA,al", None)
       else Err "connection refused";
     dbutils.trace := [] |}.

(** The log in place, the schema file missing. *)
Definition unschemed : logger.World :=
  world (<[logger.logfile := os.Regular "<log>old</log>" true true]> ∅) true.

End Examples.

(** * Properties *)

(** ** Ledger reader *)

Section LedgerReader.

Import sql.

(** A sum over the selected rows is the guarded sum over all rows. *)
Lemma sum_filter {A} (P : A → Prop) `{∀ x, Decision (P x)} (f : A → Z)
    (l : list A) :
  foldr Z.add 0 (f <$> filter P l)
  = foldr (λ r acc, if decide (P r) then f r + acc else acc) 0 l.
Proof.
  induction l as [|x l IH]; [reflexivity|].
  rewrite filter_cons. cbn [foldr]. destruct (decide (P x)) as [Hx|Hx].
  - rewrite fmap_cons. cbn [foldr]. now rewrite IH.
  - exact IH.
Qed.

Lemma COALESCE_SUM (col : list Z) :
  COALESCE (SUM col) 0 = Some (foldr Z.add 0 col).
Proof. destruct col; reflexivity. Qed.

Lemma is_int_bounds (z : Z) : is_int z = true ↔ minInt ≤ z ≤ maxInt.
Proof. unfold is_int. rewrite andb_true_iff, !Z.leb_le. tauto. Qed.

(** A guarded sum does not depend on guards that agree on the rows. *)
Lemma guarded_sum_ext {A} (P Q : A → Prop) `{∀ x, Decision (P x)}
    `{∀ x, Decision (Q x)} (f : A → Z) (l : list A) :
  (∀ x, x ∈ l → P x ↔ Q x) →
  foldr (λ r acc, if decide (P r) then f r + acc else acc) 0 l
  = foldr (λ r acc, if decide (Q r) then f r + acc else acc) 0 l.
Proof.
  induction l as [|x l IH]; intros Hl; [reflexivity|].
  cbn [foldr]. rewrite IH by (intros y Hy; apply Hl; now right).
  pose proof (Hl x (list_elem_of_here _ _)) as Hx.
  destruct (decide (P x)), (decide (Q x)); tauto.
Qed.

(** What the balance query computes for a user with one row. *)
Lemma balance_query (db : DB) (u : string) (m : Z) :
  Spec.confirmed_cash db u m →
  dbutils.QueryUserAvailableBalance db u
  = Scan_int (Some (m - Spec.reserved_amount db u)).
Proof.
  intros (r & Hr & Hm). unfold dbutils.QueryUserAvailableBalance.
  rewrite Hr. cbn [fmap list_fmap scalar]. rewrite COALESCE_SUM, sum_filter, Hm.
  reflexivity.
Qed.

(** What the shares query computes: the reservations are selected by
    user and type alone. *)
Lemma shares_query (db : DB) (u s : string) :
  dbutils.QueryUserAvailableShares db u s
  = Scan_int
      (Some (Spec.confirmed_shares db u s
             - foldr (λ r acc,
                        if decide (reservations.username r = u
                                   ∧ reservations.type r = models.SELL)
                        then reservations.shares r + acc else acc)
                 0 (RESERVATIONS db))).
Proof.
  unfold dbutils.QueryUserAvailableShares.
  now rewrite !COALESCE_SUM, !sum_filter.
Qed.

(** C1 (the code departs from the claim): al owns 10 shares of AAA and
    has 3 shares of BBB reserved for sale.  The specification's
    available shares of AAA are 10, the reservation being for another
    symbol; [QueryUserAvailableShares] answers 7, because its
    reservation subquery does not select on the symbol. *)
Theorem available_shares_subtracts_other_symbols :
  Spec.AvailableShares Examples.db_shares "al" "AAA" = 10
  ∧ dbutils.QueryUserAvailableShares Examples.db_shares "al" "AAA" = Ok 7.
Proof. split; vm_compute; reflexivity. Qed.

(** C2, as stated, fails: for a user name without a row the statement
    still selects one row, whose value is NULL, and the scan reports
    the conversion of NULL, not the absence of rows. *)
Lemma available_balance_unknown_user_not_NotFound :
  ¬ (∀ (db : DB) (u : string),
       ¬ Spec.user_exists db u →
       dbutils.QueryUserAvailableBalance db u = Err Spec.NotFound).
Proof.
  intros H. specialize (H Examples.db_shares "bob").
  assert (Hne : ¬ Spec.user_exists Examples.db_shares "bob").
  { intros (r & Hr & Hu). cbn in Hr. apply list_elem_of_singleton in Hr.
    subst r. discriminate Hu. }
  specialize (H Hne). vm_compute in H. discriminate H.
Qed.

(** C2 (amended): for a user with one row, [QueryUserAvailableBalance]
    returns the user's money minus the sum of the amounts of the
    user's BUY reservations whenever that difference is an [int]; for
    a user name without a row it fails, with the error of scanning
    NULL. *)
Theorem available_balance (db : DB) (u : string) :
  (∀ m, Spec.confirmed_cash db u m →
        minInt ≤ m - Spec.reserved_amount db u ≤ maxInt →
        dbutils.QueryUserAvailableBalance db u
        = Ok (m - Spec.reserved_amount db u))
  ∧ (¬ Spec.user_exists db u →
     dbutils.QueryUserAvailableBalance db u = Err ErrScanNULL).
Proof.
  split.
  - intros m Hm Hr. rewrite (balance_query db u m Hm). cbn [Scan_int].
    apply is_int_bounds in Hr. now rewrite Hr.
  - intros Hne. unfold dbutils.QueryUserAvailableBalance.
    assert (Hnil : filter (λ r, users.username r = u) (USERS db) = []).
    { apply elem_of_nil_inv. intros r Hr.
      apply list_elem_of_filter in Hr as [Hu Hin]. apply Hne. now exists r. }
    rewrite Hnil. reflexivity.
Qed.

Lemma available_balance_witness :
  dbutils.QueryUserAvailableBalance Examples.db_shares "al" = Ok 10000
  ∧ dbutils.QueryUserAvailableBalance Examples.db_shares "bob" = Err ErrScanNULL.
Proof.
  destruct (available_balance Examples.db_shares "al") as [Hal _].
  destruct (available_balance Examples.db_shares "bob") as [_ Hbob].
  split.
  - apply (Hal 10000).
    + exists Examples.al. split; reflexivity.
    + vm_compute. split; discriminate.
  - apply Hbob. intros (r & Hr & Hu). cbn in Hr.
    apply list_elem_of_singleton in Hr. subst r. discriminate Hu.
Defined.

(** C3, as stated, fails: with 100.00 of money and BUY reservations of
    40.00 and 70.00 the balance query returns -1000 and no error, and
    with 10 shares owned and 12 reserved for sale the shares query
    returns -2 and no error. *)
Lemma available_negative_is_returned :
  ¬ (∀ (db : DB) (u s : string) (v : Z),
       (dbutils.QueryUserAvailableBalance db u = Ok v → 0 ≤ v)
       ∧ (dbutils.QueryUserAvailableShares db u s = Ok v → 0 ≤ v)).
Proof.
  intros H.
  destruct (H Examples.db_overdrawn "al" "AAA" (-1000)) as [Hb _].
  assert (Hq : dbutils.QueryUserAvailableBalance Examples.db_overdrawn "al"
               = Ok (-1000)) by (vm_compute; reflexivity).
  specialize (Hb Hq). lia.
Qed.

(** C3 (amended): a negative difference that is an [int] is returned
    to the caller as it is, with no error and not clamped: by the
    balance query for a user with one row, and by the shares query
    when all the user's SELL reservations are for the symbol asked
    about. *)
Theorem negative_difference_returned (db : DB) (u s : string) :
  (∀ m, Spec.confirmed_cash db u m →
        minInt ≤ m - Spec.reserved_amount db u < 0 →
        dbutils.QueryUserAvailableBalance db u
        = Ok (m - Spec.reserved_amount db u))
  ∧ ((∀ r, r ∈ RESERVATIONS db →
           reservations.username r = u →
           reservations.type r = models.SELL →
           reservations.symbol r = s) →
     minInt ≤ Spec.AvailableShares db u s < 0 →
     dbutils.QueryUserAvailableShares db u s
     = Ok (Spec.AvailableShares db u s)).
Proof.
  split.
  - intros m Hm Hr. rewrite (balance_query db u m Hm). cbn [Scan_int].
    assert (Hi : is_int (m - Spec.reserved_amount db u) = true).
    { apply is_int_bounds. unfold maxInt. lia. }
    now rewrite Hi.
  - intros Hsym Hr. rewrite shares_query.
    assert (Hsum :
      foldr (λ r acc,
               if decide (reservations.username r = u
                          ∧ reservations.type r = models.SELL)
               then reservations.shares r + acc else acc)
        0 (RESERVATIONS db)
      = Spec.reserved_shares db u s).
    { unfold Spec.reserved_shares. apply guarded_sum_ext.
      intros r Hin. split.
      - intros [Hu Ht]. repeat split; auto.
      - intros (Hu & _ & Ht). now split. }
    rewrite Hsum. fold (Spec.AvailableShares db u s). cbn [Scan_int].
    assert (Hi : is_int (Spec.AvailableShares db u s) = true).
    { apply is_int_bounds. unfold maxInt. lia. }
    now rewrite Hi.
Qed.

Lemma negative_difference_returned_witness :
  dbutils.QueryUserAvailableBalance Examples.db_overdrawn "al" = Ok (-1000)
  ∧ dbutils.QueryUserAvailableShares Examples.db_overdrawn "al" "AAA" = Ok (-2).
Proof.
  destruct (negative_difference_returned Examples.db_overdrawn "al" "AAA")
    as [Hb Hs].
  split.
  - apply (Hb 10000).
    + exists Examples.al. split; reflexivity.
    + vm_compute. split; [discriminate | reflexivity].
  - apply Hs.
    + intros r Hin Hu Ht. cbn in Hin.
      repeat (apply elem_of_cons in Hin as [-> | Hin];
              [try reflexivity; try discriminate Ht |]).
      now apply elem_of_nil in Hin.
    + vm_compute. split; [discriminate | reflexivity].
Defined.

End LedgerReader.

(** ** Reservation store: the last reservation *)

Section LastReservation.

Import sql.

#[local] Instance newer_total : Total dbutils.newer.
Proof. intros [] []. unfold dbutils.newer. cbn. lia. Qed.

#[local] Instance newer_trans : Transitive dbutils.newer.
Proof. intros [] [] []. unfold dbutils.newer. cbn. lia. Qed.

(** The head of a list sorted by [newer] is no older than any member. *)
Lemma sorted_head_newest (r : reservations.row) (rest : list reservations.row) :
  StronglySorted dbutils.newer (r :: rest) →
  ∀ r', r' ∈ r :: rest → dbutils.newer r r'.
Proof.
  intros Hs r' Hin. apply StronglySorted_inv in Hs as [_ Hall].
  apply elem_of_cons in Hin as [-> | Hin].
  - destruct r. unfold dbutils.newer. cbn. lia.
  - rewrite Forall_forall in Hall. now apply Hall.
Qed.

(** C7: [QueryLastReservation] answers with a reservation of the user
    and of the type asked for, column by column that of a row of the
    store, that no other reservation of the user and type beats (none
    has a later time, and none with the same time has a greater id);
    and with the no-rows error, the store's NotFound, exactly when the
    user has no reservation of the type. *)
Theorem last_reservation (db : DB) (u : string) (t : models.OrderType) :
  match dbutils.QueryLastReservation db u t with
  | Ok res =>
      models.Username res = u
      ∧ models.Order res = t
      ∧ (∃ r, r ∈ RESERVATIONS db
              ∧ reservations.rid r = models.ID res
              ∧ reservations.username r = models.Username res
              ∧ reservations.symbol r = models.Symbol res
              ∧ reservations.shares r = models.Shares res
              ∧ reservations.amount r = models.Amount res
              ∧ reservations.type r = models.Order res
              ∧ reservations.time r = models.Time res)
      ∧ ∀ r', Spec.candidate db u t r' →
              reservations.time r' < models.Time res
              ∨ (reservations.time r' = models.Time res
                 ∧ reservations.rid r' ≤ models.ID res)
  | Err e => e = Spec.NotFound ∧ ∀ r, ¬ Spec.candidate db u t r
  end.
Proof.
  unfold dbutils.QueryLastReservation.
  set (l := filter _ (RESERVATIONS db)).
  assert (Hl : ∀ r, r ∈ l ↔ Spec.candidate db u t r).
  { intros r. unfold l, Spec.candidate. rewrite list_elem_of_filter. tauto. }
  pose proof (merge_sort_Permutation dbutils.newer l) as Hp.
  pose proof (StronglySorted_merge_sort dbutils.newer l) as Hs.
  destruct (merge_sort dbutils.newer l) as [|r rest].
  - split; [reflexivity|]. intros r Hr. apply Hl in Hr.
    apply Permutation_nil_l in Hp. rewrite <- Hp in Hr.
    now apply elem_of_nil in Hr.
  - assert (Hr : Spec.candidate db u t r).
    { apply Hl. rewrite <- Hp. now left. }
    destruct Hr as (Hin & Hu & Ht).
    split; [exact Hu|]. split; [exact Ht|]. split.
    + exists r. now repeat split.
    + intros r' Hr'. apply Hl in Hr'. rewrite <- Hp in Hr'.
      pose proof (sorted_head_newest r rest Hs r' Hr') as Hn.
      destruct r, r'. unfold dbutils.newer in Hn. cbn in *. lia.
Qed.

Lemma last_reservation_witness :
  dbutils.QueryLastReservation Examples.db_overdrawn "al" models.BUY
  = Ok {| models.ID := 2; models.Username := "al"; models.Symbol := "AAA";
          models.Shares := 0; models.Amount := 7000;
          models.Order := models.BUY; models.Time := 100 |}
  ∧ ∀ r', Spec.candidate Examples.db_overdrawn "al" models.BUY r' →
          reservations.time r' < 100
          ∨ (reservations.time r' = 100 ∧ reservations.rid r' ≤ 2).
Proof.
  assert (E : dbutils.QueryLastReservation Examples.db_overdrawn "al" models.BUY
              = Ok {| models.ID := 2; models.Username := "al";
                      models.Symbol := "AAA"; models.Shares := 0;
                      models.Amount := 7000; models.Order := models.BUY;
                      models.Time := 100 |})
    by reflexivity.
  pose proof (last_reservation Examples.db_overdrawn "al" models.BUY) as H.
  rewrite E in H. split; [exact E | exact (proj2 (proj2 (proj2 H)))].
Defined.

End LastReservation.

(** ** Decimal parsing and printing *)

Section Decimal.

Import strconv.

Lemma digit_char_spec (d : Z) :
  0 ≤ d < 10 →
  is_digit (digit_char d) = true
  ∧ digit_val (digit_char d) = d
  ∧ Ascii.eqb (digit_char d) "-" = false
  ∧ Ascii.eqb (digit_char d) "+" = false.
Proof.
  intros Hd.
  assert (Hc : d = 0 ∨ d = 1 ∨ d = 2 ∨ d = 3 ∨ d = 4 ∨ d = 5 ∨ d = 6
               ∨ d = 7 ∨ d = 8 ∨ d = 9) by lia.
  repeat destruct Hc as [-> | Hc]; try subst d; repeat split; reflexivity.
Qed.

Lemma cutoff_value : maxUint64 / 10 + 1 = 1844674407370955162.
Proof. reflexivity. Qed.

Lemma maxUint64_value : maxUint64 = 18446744073709551615.
Proof. reflexivity. Qed.

(** Reading one digit. *)
Lemma ParseUint_digits_step (d : Z) (rest : string) (a : Z) :
  0 ≤ d < 10 → 0 ≤ a → a * 10 + d ≤ maxUint64 →
  ParseUint_digits (String (digit_char d) rest) a
  = ParseUint_digits rest (a * 10 + d).
Proof.
  intros Hd Ha Hmax. destruct (digit_char_spec d Hd) as (Hdig & Hval & _).
  cbn [ParseUint_digits]. rewrite Hdig, Hval, cutoff_value.
  rewrite maxUint64_value in *.
  destruct (Z.leb_spec 1844674407370955162 a); [lia|].
  destruct (Z.ltb_spec 18446744073709551615 (a * 10 + d)); [lia|].
  reflexivity.
Qed.

Lemma scale_pos (fuel : nat) (n : Z) : 0 < scale fuel n.
Proof.
  revert n. induction fuel as [|fuel IH]; intros n; cbn [scale]; [lia|].
  destruct (n <? 10); [lia|]. specialize (IH (n / 10)). lia.
Qed.

(** Reading back what [format_digits] wrote continues from the number
    written. *)
Lemma ParseUint_format_digits (fuel : nat) :
  ∀ (n : Z) (acc : string) (a : Z),
    0 ≤ n < 10 ^ Z.of_nat fuel → 0 ≤ a →
    a * scale fuel n + n ≤ maxUint64 →
    ParseUint_digits (format_digits fuel n acc) a
    = ParseUint_digits acc (a * scale fuel n + n).
Proof.
  induction fuel as [|fuel IH]; intros n acc a Hn Ha Hmax.
  - cbn in *. f_equal. lia.
  - cbn [format_digits scale] in *.
    rewrite Nat2Z.inj_succ, Z.pow_succ_r in Hn by lia.
    destruct (Z.ltb_spec n 10) as [Hlt|Hge].
    + rewrite Z.mod_small by lia. now apply ParseUint_digits_step.
    + pose proof (scale_pos fuel (n / 10)) as Hs.
      pose proof (Z.div_mod n 10 ltac:(lia)) as Hdm.
      pose proof (Z.mod_pos_bound n 10 ltac:(lia)) as Hm.
      rewrite IH; [| split; [apply Z.div_pos; lia
                            | apply Z.div_lt_upper_bound; lia] | lia | nia].
      rewrite ParseUint_digits_step; [f_equal; nia | lia | nia | nia].
Qed.

(** What [format_digits] writes starts with a digit. *)
Lemma format_digits_head (fuel : nat) :
  ∀ (n : Z) (acc : string),
    ∃ d rest, 0 ≤ d < 10
              ∧ format_digits (S fuel) n acc = String (digit_char d) rest.
Proof.
  induction fuel as [|fuel IH]; intros n acc.
  - exists (n mod 10), acc. split; [apply Z.mod_pos_bound; lia|].
    cbn. now destruct (n <? 10).
  - change (format_digits (S (S fuel)) n acc)
      with (if n <? 10 then String (digit_char (n mod 10)) acc
            else format_digits (S fuel) (n / 10)
                   (String (digit_char (n mod 10)) acc)).
    destruct (n <? 10).
    + exists (n mod 10), acc. split; [apply Z.mod_pos_bound; lia|reflexivity].
    + apply IH.
Qed.

(** Printing a non-negative [int] and parsing it gives the number
    back: [FormatInt] writes the decimal numeral. *)
Lemma Atoi_FormatInt (n : Z) :
  0 ≤ n ≤ maxInt → Atoi (FormatInt n) = Ok n.
Proof.
  intros Hn. unfold maxInt in Hn. unfold Atoi, ParseInt, FormatInt.
  destruct (Z.ltb_spec n 0); [lia|].
  destruct (format_digits_head 19 n EmptyString) as (d & rest & Hd & Heq).
  pose proof (ParseUint_format_digits 20 n EmptyString 0) as Hp.
  rewrite Heq in *. destruct (digit_char_spec d Hd) as (_ & _ & Hm & Hpl).
  rewrite Hm, Hpl. cbn [orb negb andb]. unfold ParseUint.
  rewrite Hp; [| change (10 ^ Z.of_nat 20) with 100000000000000000000; lia
               | lia | rewrite maxUint64_value; lia].
  cbn [ParseUint_digits]. rewrite Z.mul_0_l, Z.add_0_l.
  destruct (Z.leb_spec (2 ^ 63) n); [lia|]. reflexivity.
Qed.

Lemma ParseUint_digits_ge (s : string) :
  ∀ a v, 0 ≤ a → ParseUint_digits s a = Ok v → 0 ≤ v.
Proof.
  induction s as [|c s IH]; intros a v Ha; cbn [ParseUint_digits].
  - intros [= <-]. exact Ha.
  - destruct (is_digit c) eqn:Hc; [|discriminate].
    destruct (_ <=? a); [discriminate|].
    destruct (_ <? _); [discriminate|].
    apply IH. unfold is_digit in Hc. unfold digit_val. lia.
Qed.

(** [Atoi] answers with an [int]. *)
Lemma Atoi_range (s : string) (n : Z) :
  Atoi s = Ok n → minInt ≤ n ≤ maxInt.
Proof.
  unfold Atoi, ParseInt, minInt, maxInt. destruct s as [|c rest]; [discriminate|].
  destruct (ParseUint _) as [un|k] eqn:Hu; [|discriminate].
  assert (0 ≤ un).
  { unfold ParseUint in Hu. destruct (if _ || _ then _ else _); [discriminate|].
    now apply ParseUint_digits_ge in Hu. }
  destruct (Ascii.eqb c "-"); cbn [negb andb].
  - destruct (Z.ltb_spec (2 ^ 63) un); [discriminate|]. intros [= <-]. lia.
  - destruct (Z.leb_spec (2 ^ 63) un); [discriminate|]. intros [= <-]. lia.
Qed.

End Decimal.

(** ** Audit logger: the monetary formatter *)

Section FormatBalance.

(** C8: the formatter maps the minor-unit string 12345 to 123.45. *)
Theorem formatBalance_12345 : logger.formatBalance "12345" = Ok "123.45".
Proof. reflexivity. Qed.

(** C9: for an input that parses to a non-negative [n], the formatter
    answers with the decimal numeral of [n / 100], a dot and the
    decimal numeral of [n mod 100] (numerals that parse back to these
    numbers), the latter a single character when it is below ten; so 5
    gives 0.5 and 12305 gives 123.5. *)
Theorem formatBalance_unpadded :
  (∀ (s : string) (n : Z),
     strconv.Atoi s = Ok n → 0 ≤ n →
     logger.formatBalance s
     = Ok (strconv.FormatInt (n / 100) ++ "." ++ strconv.FormatInt (n mod 100))
     ∧ strconv.Atoi (strconv.FormatInt (n / 100)) = Ok (n / 100)
     ∧ strconv.Atoi (strconv.FormatInt (n mod 100)) = Ok (n mod 100)
     ∧ (n mod 100 < 10 →
        String.length (strconv.FormatInt (n mod 100)) = 1%nat))
  ∧ logger.formatBalance "5" = Ok "0.5"
  ∧ logger.formatBalance "12305" = Ok "123.5".
Proof.
  split; [|split; reflexivity].
  intros s n Hs Hn. pose proof (Atoi_range s n Hs) as Hr. unfold maxInt in Hr.
  pose proof (Z.mod_pos_bound n 100 ltac:(lia)) as Hm.
  pose proof (Z.div_pos n 100 Hn ltac:(lia)) as Hq.
  pose proof (Z.div_le_upper_bound n 100 n ltac:(lia) ltac:(lia)) as Hq'.
  repeat split.
  - unfold logger.formatBalance. rewrite Hs.
    now rewrite Z.quot_div_nonneg, Z.rem_mod_nonneg by lia.
  - apply Atoi_FormatInt. unfold maxInt. lia.
  - apply Atoi_FormatInt. unfold maxInt. lia.
  - intros Hlt. unfold strconv.FormatInt.
    destruct (Z.ltb_spec (n mod 100) 0); [lia|].
    cbn [strconv.format_digits].
    destruct (Z.ltb_spec (n mod 100) 10); [reflexivity|lia].
Qed.

Lemma formatBalance_unpadded_witness :
  logger.formatBalance "12305" = Ok ("123" ++ "." ++ "5").
Proof.
  destruct formatBalance_unpadded as [H _].
  destruct (H "12305" 12305) as [Hf _].
  - reflexivity.
  - lia.
  - exact Hf.
Defined.

End FormatBalance.

(** ** Audit logger: appending and validating *)

Section AuditLogger.

Context `{lib : logger.XmlLib}.

Import logger.
Import Spec.

Lemma print_printed (msg : string) (w : World) : print msg w = printed [msg] w.
Proof. reflexivity. Qed.

Lemma printed_app (ms1 ms2 : list string) (w : World) :
  printed ms2 (printed ms1 w) = printed (ms1 ++ ms2) w.
Proof. unfold printed. cbn. now rewrite fmap_app, app_assoc. Qed.

Lemma print_errors (errs : list string) :
  ∀ w, fold_left (λ w e, print ("error: " ++ e) w) errs w
       = printed ((λ e, "error: " ++ e) <$> errs) w.
Proof.
  induction errs as [|e errs IH]; intros w; cbn [fold_left].
  - destruct w. unfold printed. cbn. now rewrite app_nil_r.
  - rewrite IH, print_printed, printed_app. reflexivity.
Qed.

(** [validateSchema] only prints. *)
Lemma validateSchema_prints (ele : string) (w : World) :
  ∃ msgs, validateSchema ele w = printed msgs w.
Proof.
  unfold validateSchema.
  destruct (os.Open _ _) as [schema|err]; [|eexists; apply print_printed].
  destruct (os.ReadAll _ _) as [schemabuf|err]; [|eexists; apply print_printed].
  destruct (xsd_Parse _) as [s|err]; [|eexists; apply print_printed].
  destruct (libxml2_Parse _) as [d|err]; [|eexists; apply print_printed].
  destruct (Validate s d) as [errs|]; [|eexists; apply print_printed].
  eexists. apply print_errors.
Qed.






Lemma log_content_write (w : World) (data : string) (r wr : bool) (b : string) :
  os.entries (fs w) !! logfile = Some (os.Regular data r wr) →
  log_content (write logfile b w) = Some (data ++ b).
Proof.
  intros Hf. unfold log_content, write, os.Write. cbn. rewrite Hf. cbn.
  now rewrite lookup_insert_eq.
Qed.


Lemma OpenFile_append_ok (w : World) (data : string) (r : bool) :
  os.entries (fs w) !! logfile = Some (os.Regular data r true) →
  os.OpenFile_append (fs w) logfile = Ok logfile.
Proof. intros Hf. unfold os.OpenFile_append. now rewrite Hf. Qed.

Lemma valid_recognized (command : Command) :
  command ∈ Spec.recognized → validCommands !! command = Some true.
Proof.
  intros Hin. unfold Spec.recognized in Hin.
  repeat (apply elem_of_cons in Hin as [-> | Hin]; [reflexivity|]).
  now apply elem_of_nil in Hin.
Qed.

Lemma valid_unrecognized (command : Command) :
  command ∉ Spec.recognized → validCommands !! command = None.
Proof. intros Hn. apply not_elem_of_list_to_map_1. exact Hn. Qed.

(** C5: for a command outside the sixteen recognized ones and any
    field map, [LogCommand] returns without a panic and leaves the
    world as it was: nothing written, nothing printed. *)
Theorem LogCommand_unrecognized (command : Command)
    (vars : gmap string string) (w : World) :
  command ∉ Spec.recognized →
  LogCommand command vars w = Returned tt w.
Proof.
  intros Hn. unfold LogCommand. now rewrite (valid_unrecognized command Hn).
Qed.



Lemma append_empty (s : string) : s ++ EmptyString = s.
Proof.
  induction s as [|c s IH]; [reflexivity|].
  change (String c (s ++ EmptyString) = String c s). now rewrite IH.
Qed.

Lemma log_content_printed (msgs : list string) (w : World) :
  log_content (printed msgs w) = log_content w.
Proof. reflexivity. Qed.

(** After write and validation the log holds the old content and the
    record. *)
Lemma log_content_logged (w : World) (data output : string) :
  log_content w = Some data →
  log_content (validateSchema output (write logfile output w))
  = Some (data ++ output).
Proof.
  intros Hd.
  destruct (validateSchema_prints output (write logfile output w)) as [msgs ->].
  rewrite log_content_printed. unfold log_content in Hd.
  destruct (os.entries (fs w) !! logfile) as [[data' r wr|]|] eqn:Hf;
    try discriminate Hd.
  injection Hd as ->. now apply (log_content_write w data r wr).
Qed.

Lemma OpenFile_append_handle (w : World) (file : string) :
  os.OpenFile_append (fs w) logfile = Ok file → file = logfile.
Proof.
  unfold os.OpenFile_append.
  destruct (os.entries (fs w) !! logfile) as [[data r [|]|]|];
    congruence.
Qed.

(** C10: while the log file does not exist, [LogCommand] for a
    recognized command and [LogQuoteServ] panic with the error of the
    open and leave the world as it was, the file still missing; when
    the file exists, whatever the two calls do, it keeps its content
    as a prefix; [InitLogger] leaves an empty log file when
    [os.Create] succeeds, and returns with the world unchanged and
    without a panic when it fails. *)
Theorem log_file_comes_from_InitLogger :
  (∀ w, os.entries (fs w) !! logfile = None →
        (∀ command vars,
           command ∈ recognized →
           LogCommand command vars w = Panicked no_log_file w)
        ∧ (∀ username price stocksymbol quoteTimestamp cryptokey trans,
             LogQuoteServ username price stocksymbol quoteTimestamp
               cryptokey trans w
             = Panicked no_log_file w))
  ∧ (∀ w data,
       log_content w = Some data →
       (∀ command vars,
          ∃ suffix,
            log_content (world_of (LogCommand command vars w))
            = Some (data ++ suffix))
       ∧ (∀ username price stocksymbol quoteTimestamp cryptokey trans,
            ∃ suffix,
              log_content
                (world_of (LogQuoteServ username price stocksymbol
                             quoteTimestamp cryptokey trans w))
              = Some (data ++ suffix)))
  ∧ (∀ w, match os.Create (fs w) logfile with
          | Ok _ => log_content (InitLogger w) = Some EmptyString
          | Err _ => InitLogger w = w
          end).
Proof.
  split; [|split].
  - intros w Hf. split.
    + intros command vars Hc. unfold LogCommand.
      rewrite (valid_recognized command Hc). unfold os.OpenFile_append.
      now rewrite Hf.
    + intros. unfold LogQuoteServ, os.OpenFile_append. now rewrite Hf.
  - intros w data Hd.
    assert (Hsame : ∃ suffix, log_content w = Some (data ++ suffix)).
    { exists EmptyString. now rewrite append_empty. }
    split.
    + intros command vars. unfold LogCommand.
      destruct (validCommands !! command); [|exact Hsame].
      destruct (os.OpenFile_append _ _) as [file|err] eqn:Ho; [|exact Hsame].
      apply OpenFile_append_handle in Ho as ->.
      destruct (match vars !! "amount" with Some _ => _ | None => _ end);
        [|exact Hsame].
      destruct (MarshalIndent _ _ _) as [output|err]; [|exact Hsame].
      exists output. cbn [world_of]. now apply log_content_logged.
    + intros. unfold LogQuoteServ.
      destruct (os.OpenFile_append _ _) as [file|err] eqn:Ho; [|exact Hsame].
      apply OpenFile_append_handle in Ho as ->.
      destruct (MarshalIndent _ _ _) as [output|err]; [|exact Hsame].
      exists output. cbn [world_of]. now apply log_content_logged.
  - intros w. unfold InitLogger, os.Create.
    destruct (os.entries (fs w) !! logfile) as [[data r wr|]|].
    + destruct (r && wr); [|reflexivity].
      unfold log_content. cbn. now rewrite lookup_insert_eq.
    + reflexivity.
    + destruct (os.dir_writable (fs w)); [|reflexivity].
      unfold log_content. cbn. now rewrite lookup_insert_eq.
Qed.

End AuditLogger.

(** *** The logger theorems at concrete worlds *)

Lemma LogCommand_unrecognized_witness :
  @logger.LogCommand (Examples.stubXml None) "HELLO"
    (<["amount" := "12305"]> ∅) Examples.running
  = logger.Returned tt Examples.running.
Proof.
  apply (@LogCommand_unrecognized (Examples.stubXml None)).
  intros Hin. unfold Spec.recognized in Hin.
  repeat (apply elem_of_cons in Hin as [Hin | Hin]; [discriminate Hin|]).
  now apply elem_of_nil in Hin.
Defined.


Lemma log_file_comes_from_InitLogger_witness :
  @logger.LogCommand (Examples.stubXml None) "BUY" ∅ Examples.fresh
  = logger.Panicked Spec.no_log_file Examples.fresh
  ∧ logger.InitLogger Examples.locked = Examples.locked
  ∧ logger.log_content (logger.InitLogger Examples.fresh) = Some EmptyString.
Proof.
  destruct (@log_file_comes_from_InitLogger (Examples.stubXml None))
    as (Habsent & _ & Hinit).
  split; [|split].
  - destruct (Habsent Examples.fresh) as [Hcmd _]; [reflexivity|].
    apply Hcmd. unfold Spec.recognized. do 2 right. left.
  - exact (Hinit Examples.locked).
  - exact (Hinit Examples.fresh).
Defined.

(** * Further properties of the code *)

(** ** Ledger reader: more on the two availability queries *)

Section LedgerReaderMore.

Import sql.

Lemma guarded_sum_none {A} (P : A → Prop) `{∀ x, Decision (P x)} (f : A → Z)
    (l : list A) :
  (∀ x, x ∈ l → ¬ P x) →
  foldr (λ r acc, if decide (P r) then f r + acc else acc) 0 l = 0.
Proof.
  induction l as [|x l IH]; intros Hl; [reflexivity|].
  cbn [foldr]. rewrite IH by (intros y Hy; apply Hl; now right).
  destruct (decide (P x)) as [Hp|Hp]; [|reflexivity].
  exfalso. apply (Hl x); [now left | exact Hp].
Qed.

Lemma guarded_sum_snoc {A} (P : A → Prop) `{∀ x, Decision (P x)} (f : A → Z)
    (l : list A) (x : A) :
  foldr (λ r acc, if decide (P r) then f r + acc else acc) 0 (l ++ [x])
  = foldr (λ r acc, if decide (P r) then f r + acc else acc) 0 l
    + (if decide (P x) then f x else 0).
Proof.
  induction l as [|y l IH]; cbn [app foldr].
  - destruct (decide (P x)); lia.
  - rewrite IH. destruct (decide (P y)), (decide (P x)); lia.
Qed.

Lemma guarded_sum_nonneg {A} (P : A → Prop) `{∀ x, Decision (P x)} (f : A → Z)
    (l : list A) :
  (∀ x, x ∈ l → 0 ≤ f x) →
  0 ≤ foldr (λ r acc, if decide (P r) then f r + acc else acc) 0 l.
Proof.
  induction l as [|x l IH]; intros Hl; cbn [foldr]; [lia|].
  specialize (IH ltac:(intros y Hy; apply Hl; now right)).
  pose proof (Hl x ltac:(now left)). destruct (decide (P x)); lia.
Qed.

(** The balance query in terms of the user rows and the guarded sum. *)
Lemma balance_query_rows (db : DB) (u : string) :
  dbutils.QueryUserAvailableBalance db u
  = match scalar (users.money <$>
                    filter (λ r, users.username r = u) (USERS db)) with
    | Err e => Err e
    | Ok money => Scan_int (minus money (Some (Spec.reserved_amount db u)))
    end.
Proof.
  unfold dbutils.QueryUserAvailableBalance.
  destruct (scalar _); [|reflexivity].
  now rewrite COALESCE_SUM, sum_filter.
Qed.

Lemma reserved_amount_with_reservation (db : DB) (u : string)
    (r : reservations.row) :
  Spec.reserved_amount (Spec.with_reservation db r) u
  = Spec.reserved_amount db u
    + (if decide (reservations.username r = u ∧ reservations.type r = models.BUY)
       then reservations.amount r else 0).
Proof.
  unfold Spec.reserved_amount. cbn [RESERVATIONS Spec.with_reservation].
  now rewrite guarded_sum_snoc.
Qed.

(** X1: [QueryUserAvailableShares] never reports a missing user, stock
    or row: its only error is a difference that is no [int]; for a user
    and symbol without stock rows and a user without SELL reservations
    (an unknown user, say) it answers 0. *)
Theorem available_shares_unknown_is_zero (db : DB) (u s : string) :
  (∀ e, dbutils.QueryUserAvailableShares db u s = Err e → e = ErrScanRange)
  ∧ ((∀ r, r ∈ STOCKS db → ¬ (stocks.username r = u ∧ stocks.symbol r = s)) →
     (∀ r, r ∈ RESERVATIONS db →
           ¬ (reservations.username r = u ∧ reservations.type r = models.SELL)) →
     dbutils.QueryUserAvailableShares db u s = Ok 0).
Proof.
  rewrite shares_query. split.
  - intros e. cbn [Scan_int]. destruct (is_int _); congruence.
  - intros Hst Hres. unfold Spec.confirmed_shares.
    rewrite (guarded_sum_none _ _ _ Hst), (guarded_sum_none _ _ _ Hres).
    reflexivity.
Qed.

Lemma available_shares_unknown_is_zero_witness :
  dbutils.QueryUserAvailableShares Examples.db_shares "bob" "AAA" = Ok 0.
Proof.
  destruct (available_shares_unknown_is_zero Examples.db_shares "bob" "AAA")
    as [_ H].
  apply H.
  - intros r Hin [Hu _]. cbn in Hin.
    repeat (apply elem_of_cons in Hin as [-> | Hin]; [discriminate Hu|]).
    now apply elem_of_nil in Hin.
  - intros r Hin [Hu _]. cbn in Hin.
    repeat (apply elem_of_cons in Hin as [-> | Hin]; [discriminate Hu|]).
    now apply elem_of_nil in Hin.
Defined.

(** X2: inserting a reservation of another user, or one of type SELL,
    leaves the available balance of [u] as it was; inserting a BUY
    reservation of [u] lowers it by the reservation's amount (when the
    new value is an [int]). *)
Theorem available_balance_after_reservation (db : DB) (u : string)
    (r : reservations.row) :
  (¬ (reservations.username r = u ∧ reservations.type r = models.BUY) →
   dbutils.QueryUserAvailableBalance (Spec.with_reservation db r) u
   = dbutils.QueryUserAvailableBalance db u)
  ∧ (reservations.username r = u → reservations.type r = models.BUY →
     ∀ v, dbutils.QueryUserAvailableBalance db u = Ok v →
          is_int (v - reservations.amount r) = true →
          dbutils.QueryUserAvailableBalance (Spec.with_reservation db r) u
          = Ok (v - reservations.amount r)).
Proof.
  rewrite !balance_query_rows, reserved_amount_with_reservation.
  cbn [USERS Spec.with_reservation].
  split.
  - intros Hn. destruct (decide _) as [Hy|_]; [contradiction|].
    now rewrite Z.add_0_r.
  - intros Hu Ht v Hv Hi.
    destruct (decide _) as [_|Hn]; [|exfalso; apply Hn; now split].
    destruct (scalar _) as [[m|]|e]; try discriminate Hv.
    cbn [minus Scan_int] in *.
    destruct (is_int (m - Spec.reserved_amount db u)); [|discriminate Hv].
    injection Hv as <-.
    replace (m - (Spec.reserved_amount db u + reservations.amount r))
      with (m - Spec.reserved_amount db u - reservations.amount r) by lia.
    now rewrite Hi.
Qed.

Lemma available_balance_after_reservation_witness :
  dbutils.QueryUserAvailableBalance
    (Spec.with_reservation Examples.db_shares
       (Examples.reservation 7 "AAA" 0 2500 models.BUY 200)) "al"
  = Ok 7500
  ∧ dbutils.QueryUserAvailableBalance
      (Spec.with_reservation Examples.db_shares
         (Examples.reservation 8 "AAA" 4 2500 models.SELL 200)) "al"
    = Ok 10000.
Proof.
  split.
  - destruct (available_balance_after_reservation Examples.db_shares "al"
                (Examples.reservation 7 "AAA" 0 2500 models.BUY 200)) as [_ H].
    apply (H eq_refl eq_refl 10000); reflexivity.
  - destruct (available_balance_after_reservation Examples.db_shares "al"
                (Examples.reservation 8 "AAA" 4 2500 models.SELL 200)) as [H _].
    rewrite H; [reflexivity|]. intros [_ Ht]. discriminate Ht.
Defined.

(** ** The row queries *)

(** X3: [QueryUser] answers with a row of the user name asked for, and
    with the no-rows error exactly when the store has no such user. *)
Theorem QueryUser_found_or_no_rows (db : DB) (u : string) :
  match dbutils.QueryUser db u with
  | Ok user =>
      models.User.Username user = u
      ∧ ∃ r, r ∈ USERS db
             ∧ users.username r = u
             ∧ models.User.ID user = users.uid r
             ∧ models.User.Money user = users.money r
  | Err e => e = ErrNoRows ∧ ¬ Spec.user_exists db u
  end.
Proof.
  unfold dbutils.QueryUser.
  destruct (filter _ (USERS db)) as [|r rest] eqn:Hf.
  - split; [reflexivity|]. intros (r & Hin & Hu).
    assert (Hr : r ∈ filter (λ r, users.username r = u) (USERS db))
      by (apply list_elem_of_filter; now split).
    rewrite Hf in Hr. now apply elem_of_nil in Hr.
  - assert (Hr : r ∈ filter (λ r, users.username r = u) (USERS db))
      by (rewrite Hf; now left).
    apply list_elem_of_filter in Hr as [Hu Hin]. cbn. split; [exact Hu|].
    exists r. repeat split; assumption.
Qed.

(** X4: when both succeed, the available balance is at most the money
    [QueryUser] reports, provided no reservation amount is negative. *)
Theorem available_balance_le_money (db : DB) (u : string)
    (user : models.User.User) (v : Z) :
  dbutils.QueryUser db u = Ok user →
  dbutils.QueryUserAvailableBalance db u = Ok v →
  (∀ r, r ∈ RESERVATIONS db → 0 ≤ reservations.amount r) →
  v ≤ models.User.Money user.
Proof.
  intros Hq Hb Hpos. rewrite balance_query_rows in Hb.
  unfold dbutils.QueryUser in Hq.
  destruct (filter _ (USERS db)) as [|r [|r' rest]]; try discriminate.
  cbn in Hb. destruct (is_int _); [|discriminate Hb].
  injection Hb as <-. injection Hq as <-. cbn.
  pose proof (guarded_sum_nonneg
                (λ r, reservations.username r = u
                      ∧ reservations.type r = models.BUY)
                reservations.amount (RESERVATIONS db) Hpos) as Hs.
  unfold Spec.reserved_amount. lia.
Qed.

Lemma available_balance_le_money_witness :
  ∃ v, dbutils.QueryUserAvailableBalance
         (Spec.with_reservation Examples.db_shares
            (Examples.reservation 7 "AAA" 0 4000 models.BUY 200)) "al"
       = Ok v
       ∧ v ≤ 10000.
Proof.
  exists 6000. split; [reflexivity|].
  apply (available_balance_le_money
           (Spec.with_reservation Examples.db_shares
              (Examples.reservation 7 "AAA" 0 4000 models.BUY 200))
           "al"
           {| models.User.ID := 1; models.User.Username := "al";
              models.User.Money := 10000 |} 6000).
  - reflexivity.
  - reflexivity.
  - intros r Hin. cbn in Hin.
    repeat (apply elem_of_cons in Hin as [-> | Hin]; [cbn; lia|]).
    now apply elem_of_nil in Hin.
Defined.


End LedgerReaderMore.

(** ** Reservation store: fetching by id and the newest reservation *)

Section ReservationsMore.

Import sql.

#[local] Existing Instance newer_total.
#[local] Existing Instance newer_trans.

(** The row behind a successful [QueryLastReservation]. *)
Lemma QueryLastReservation_row (db : DB) (u : string) (t : models.OrderType)
    (res : models.Reservation) :
  dbutils.QueryLastReservation db u t = Ok res →
  ∃ r, r ∈ RESERVATIONS db
       ∧ reservations.username r = u ∧ reservations.type r = t
       ∧ res = dbutils.scanReservation r.
Proof.
  unfold dbutils.QueryLastReservation.
  set (l := filter _ (RESERVATIONS db)).
  pose proof (merge_sort_Permutation dbutils.newer l) as Hp.
  destruct (merge_sort dbutils.newer l) as [|r rest]; [discriminate|].
  intros [= <-]. exists r.
  assert (Hr : r ∈ l) by (rewrite <- Hp; now left).
  apply list_elem_of_filter in Hr as [[Hu Ht] Hin]. now repeat split.
Qed.

(** X6: [QueryReservation] answers with a reservation that is, column
    by column, a row of the store with the id asked for, and with the
    no-rows error exactly when no reservation has that id. *)
Theorem QueryReservation_found_or_no_rows (db : DB) (rid : Z) :
  match dbutils.QueryReservation db rid with
  | Ok res =>
      models.ID res = rid
      ∧ ∃ r, r ∈ RESERVATIONS db
             ∧ reservations.rid r = models.ID res
             ∧ reservations.username r = models.Username res
             ∧ reservations.symbol r = models.Symbol res
             ∧ reservations.shares r = models.Shares res
             ∧ reservations.amount r = models.Amount res
             ∧ reservations.type r = models.Order res
             ∧ reservations.time r = models.Time res
  | Err e =>
      e = ErrNoRows ∧ ∀ r, r ∈ RESERVATIONS db → reservations.rid r ≠ rid
  end.
Proof.
  unfold dbutils.QueryReservation.
  destruct (filter _ (RESERVATIONS db)) as [|r rest] eqn:Hf.
  - split; [reflexivity|]. intros r Hin Hr.
    assert (Hr' : r ∈ filter (λ r, reservations.rid r = rid) (RESERVATIONS db))
      by (apply list_elem_of_filter; now split).
    rewrite Hf in Hr'. now apply elem_of_nil in Hr'.
  - assert (Hr : r ∈ filter (λ r, reservations.rid r = rid) (RESERVATIONS db))
      by (rewrite Hf; now left).
    apply list_elem_of_filter in Hr as [Hrid Hin]. split; [exact Hrid|].
    exists r. now repeat split.
Qed.

(** X7: when no two reservations share an id, the reservation
    [QueryLastReservation] answers with is the one [QueryReservation]
    fetches under its id. *)
Theorem last_reservation_fetched_by_id (db : DB) (u : string)
    (t : models.OrderType) (res : models.Reservation) :
  Spec.unique_rids db →
  dbutils.QueryLastReservation db u t = Ok res →
  dbutils.QueryReservation db (models.ID res) = Ok res.
Proof.
  intros Huniq Hlast.
  destruct (QueryLastReservation_row db u t res Hlast) as (r & Hin & _ & _ & ->).
  unfold dbutils.QueryReservation. cbn [models.ID dbutils.scanReservation].
  destruct (filter _ (RESERVATIONS db)) as [|r0 rest] eqn:Hf.
  - assert (Hr : r ∈ filter (λ r', reservations.rid r' = reservations.rid r)
                       (RESERVATIONS db))
      by (apply list_elem_of_filter; now split).
    rewrite Hf in Hr. now apply elem_of_nil in Hr.
  - assert (Hr0 : r0 ∈ filter (λ r', reservations.rid r' = reservations.rid r)
                        (RESERVATIONS db))
      by (rewrite Hf; now left).
    apply list_elem_of_filter in Hr0 as [Hrid Hin0].
    now rewrite (Huniq r0 r Hin0 Hin Hrid).
Qed.

Lemma last_reservation_fetched_by_id_witness :
  dbutils.QueryReservation Examples.db_overdrawn 2
  = Ok (dbutils.scanReservation
          (Examples.reservation 2 "AAA" 0 7000 models.BUY 100)).
Proof.
  apply (last_reservation_fetched_by_id Examples.db_overdrawn "al" models.BUY
           (dbutils.scanReservation
              (Examples.reservation 2 "AAA" 0 7000 models.BUY 100))).
  - intros r1 r2 H1 H2 Hrid. cbn in H1, H2.
    repeat (apply elem_of_cons in H1 as [-> | H1]);
      try (now apply elem_of_nil in H1);
      repeat (apply elem_of_cons in H2 as [-> | H2]);
      try (now apply elem_of_nil in H2);
      try reflexivity; discriminate Hrid.
  - reflexivity.
Defined.

(** X8: after the insertion of a reservation of [u] and [t] that is
    later than every reservation of [u] and [t] in the store, or as late
    as the latest with a greater id, [QueryLastReservation] answers with
    the inserted one: its id, user, symbol, shares, amount, type and
    time. *)
Theorem inserted_newest_is_last (db : DB) (u : string) (t : models.OrderType)
    (r : reservations.row) :
  reservations.username r = u →
  reservations.type r = t →
  (∀ r', r' ∈ RESERVATIONS db →
         reservations.username r' = u → reservations.type r' = t →
         reservations.time r' < reservations.time r
         ∨ (reservations.time r' = reservations.time r
            ∧ reservations.rid r' < reservations.rid r)) →
  dbutils.QueryLastReservation (Spec.with_reservation db r) u t
  = Ok {| models.ID := reservations.rid r;
          models.Username := u;
          models.Symbol := reservations.symbol r;
          models.Shares := reservations.shares r;
          models.Amount := reservations.amount r;
          models.Order := t;
          models.Time := reservations.time r |}.
Proof.
  intros Hu Ht Hnew. unfold dbutils.QueryLastReservation.
  cbn [RESERVATIONS Spec.with_reservation].
  set (l := filter _ (RESERVATIONS db ++ [r])%list).
  assert (Hl : ∀ x, x ∈ l ↔
                    (x ∈ RESERVATIONS db ∨ x = r)
                    ∧ reservations.username x = u ∧ reservations.type x = t).
  { intros x. unfold l.
    rewrite list_elem_of_filter, elem_of_app, list_elem_of_singleton. tauto. }
  pose proof (merge_sort_Permutation dbutils.newer l) as Hp.
  pose proof (StronglySorted_merge_sort dbutils.newer l) as Hs.
  destruct (merge_sort dbutils.newer l) as [|r0 rest].
  - assert (Hr : r ∈ l) by (apply Hl; tauto).
    rewrite <- Hp in Hr. now apply elem_of_nil in Hr.
  - assert (Hr : r ∈ r0 :: rest) by (rewrite Hp; apply Hl; tauto).
    pose proof (sorted_head_newest r0 rest Hs r Hr) as Hn.
    assert (Hr0 : r0 ∈ l) by (rewrite <- Hp; now left).
    apply Hl in Hr0 as ([Hold | ->] & Hu0 & Ht0).
    + exfalso. specialize (Hnew r0 Hold Hu0 Ht0).
      destruct r, r0. unfold dbutils.newer in Hn. cbn in *. lia.
    + rewrite <- Hu, <- Ht. reflexivity.
Qed.

Lemma inserted_newest_is_last_witness :
  dbutils.QueryLastReservation
    (Spec.with_reservation Examples.db_overdrawn
       (Examples.reservation 9 "BBB" 0 100 models.BUY 100)) "al" models.BUY
  = Ok {| models.ID := 9; models.Username := "al"; models.Symbol := "BBB";
          models.Shares := 0; models.Amount := 100;
          models.Order := models.BUY; models.Time := 100 |}.
Proof.
  apply (inserted_newest_is_last Examples.db_overdrawn "al" models.BUY
           (Examples.reservation 9 "BBB" 0 100 models.BUY 100));
    [reflexivity | reflexivity |].
  intros r' Hin Hu' Ht'. cbn in Hin.
  repeat (apply elem_of_cons in Hin as [-> | Hin];
          [try discriminate Ht'; cbn; lia|]).
  now apply elem_of_nil in Hin.
Defined.

End ReservationsMore.

(** ** Quote client *)

Section QuoteClient.

Lemma append_assoc (a b c : string) : (a ++ b) ++ c = a ++ b ++ c.
Proof.
  induction a as [|x a IH]; [reflexivity|].
  change (String x ((a ++ b) ++ c) = String x (a ++ b ++ c)). now rewrite IH.
Qed.

(** X12: [QueryQuote] asks the quote service named by the environment
    for [/api/getQuote/username/stock], a variable that is not set
    counting as empty.  When the request fails it answers with an
    empty body and the error, having logged the address of the
    service; otherwise it answers with the body and the error of
    reading it, if any, having logged the address and then the body.
    The store, the environment and the network are as before. *)
Theorem QueryQuote_asks_configured_server (w : dbutils.World)
    (username stock : string) :
  let host := default EmptyString (dbutils.environ w !! "QUOTE_SERVER_HOST") in
  let port := default EmptyString (dbutils.environ w !! "QUOTE_SERVER_PORT") in
  dbutils.QueryQuote username stock w
  = match dbutils.http_Get w (Spec.quoteURL host port username stock) with
    | Err err =>
        (EmptyString, Some err, Spec.logged ["http://" ++ host ++ ":" ++ port] w)
    | Ok (body, err) =>
        (body, err, Spec.logged ["http://" ++ host ++ ":" ++ port; body] w)
    end.
Proof.
  intros host port.
  unfold dbutils.QueryQuote, dbutils.GetQuoteServerURL, dbutils.Getenv.
  fold host port. cbn [dbutils.http_Get dbutils.emit].
  assert (Hurl : ("http://" ++ host ++ ":" ++ port)
                   ++ "/api/getQuote/" ++ username ++ "/" ++ stock
                 = Spec.quoteURL host port username stock).
  { unfold Spec.quoteURL.
    rewrite (append_assoc "http://"), (append_assoc host),
      (append_assoc ":"). reflexivity. }
  rewrite Hurl.
  destruct (dbutils.http_Get w _) as [[body err]|err].
  - unfold Spec.logged, dbutils.emit. cbn. now rewrite <- app_assoc.
  - reflexivity.
Qed.

End QuoteClient.

Lemma QueryQuote_asks_configured_server_witness :
  dbutils.QueryQuote "al" "AAA" Examples.quoteService
  = ("9.50,AAA,al", None,
     Spec.logged ["http://quotes:4444"; "9.50,AAA,al"] Examples.quoteService)
  ∧ dbutils.QueryQuote "bo" "BBB" Examples.quoteService
    = (EmptyString, Some "connection refused",
       Spec.logged ["http://quotes:4444"] Examples.quoteService).
Proof.
  split.
  - rewrite (QueryQuote_asks_configured_server Examples.quoteService "al" "AAA").
    reflexivity.
  - rewrite (QueryQuote_asks_configured_server Examples.quoteService "bo" "BBB").
    reflexivity.
Defined.

(** ** The monetary formatter and the timestamp: more on decimals *)

Section FormatMore.

Import strconv.

Lemma Atoi_FormatInt_neg (n : Z) :
  minInt ≤ n < 0 → Atoi (FormatInt n) = Ok n.
Proof.
  intros Hn. unfold minInt in Hn. unfold Atoi, ParseInt, FormatInt.
  destruct (Z.ltb_spec n 0); [|lia].
  change (Ascii.eqb "-" "-") with true. change (Ascii.eqb "-" "+") with false.
  cbn [orb negb andb].
  destruct (format_digits_head 19 (- n) EmptyString) as (d & rest & Hd & Heq).
  pose proof (ParseUint_format_digits 20 (- n) EmptyString 0) as Hp.
  rewrite Heq in *. unfold ParseUint.
  rewrite Hp; [| change (10 ^ Z.of_nat 20) with 100000000000000000000; lia
               | lia | rewrite maxUint64_value; lia].
  cbn [ParseUint_digits]. rewrite Z.mul_0_l, Z.add_0_l.
  destruct (Z.ltb_spec (2 ^ 63) (- n)); [lia|]. f_equal. lia.
Qed.

(** Printing an [int] and parsing it gives the number back. *)
Lemma Atoi_FormatInt_int (n : Z) :
  minInt ≤ n ≤ maxInt → Atoi (FormatInt n) = Ok n.
Proof.
  intros Hn. destruct (Z.lt_ge_cases n 0).
  - apply Atoi_FormatInt_neg. lia.
  - apply Atoi_FormatInt. lia.
Qed.

Lemma FormatInt_inj (a b : Z) :
  minInt ≤ a ≤ maxInt → minInt ≤ b ≤ maxInt →
  FormatInt a = FormatInt b → a = b.
Proof.
  intros Ha Hb Heq. pose proof (Atoi_FormatInt_int a Ha) as H1.
  rewrite Heq, (Atoi_FormatInt_int b Hb) in H1. congruence.
Qed.

Lemma all_chars_impl (P Q : ascii → bool) (s : string) :
  (∀ c, P c = true → Q c = true) →
  Spec.all_chars P s = true → Spec.all_chars Q s = true.
Proof.
  intros HPQ. induction s as [|c s IH]; [reflexivity|]. cbn [Spec.all_chars].
  rewrite !andb_true_iff. intros [Hc Hs]. split; [now apply HPQ | now apply IH].
Qed.

Lemma format_digits_chars (fuel : nat) :
  ∀ n acc, Spec.all_chars is_digit acc = true →
           Spec.all_chars is_digit (format_digits fuel n acc) = true.
Proof.
  induction fuel as [|fuel IH]; intros n acc Hacc; [exact Hacc|].
  cbn [format_digits].
  assert (Hacc' : Spec.all_chars is_digit (String (digit_char (n mod 10)) acc)
                  = true).
  { cbn [Spec.all_chars]. rewrite Hacc, andb_true_r.
    apply digit_char_spec. apply Z.mod_pos_bound. lia. }
  destruct (n <? 10); [exact Hacc' | now apply IH].
Qed.

(** What [FormatInt] writes has digits and minus signs only. *)
Lemma FormatInt_chars (n : Z) : Spec.all_chars Spec.numeric (FormatInt n) = true.
Proof.
  unfold FormatInt. destruct (n <? 0).
  - cbn [Spec.all_chars]. apply andb_true_iff. split; [reflexivity|].
    apply (all_chars_impl is_digit); [|now apply format_digits_chars].
    intros c Hc. unfold Spec.numeric. now rewrite Hc.
  - apply (all_chars_impl is_digit); [|now apply format_digits_chars].
    intros c Hc. unfold Spec.numeric. now rewrite Hc.
Qed.

Lemma numeric_not_dot (c : ascii) : Spec.numeric c = true → Ascii.eqb c "." = false.
Proof.
  intros Hc. destruct (Ascii.eqb_spec c ".") as [->|]; [|reflexivity].
  discriminate Hc.
Qed.

Lemma string_cons_app (c : ascii) (s t : string) :
  String c s ++ t = String c (s ++ t).
Proof. reflexivity. Qed.

Lemma first_field_dot (s t : string) :
  Spec.all_chars Spec.numeric s = true →
  first_field "." (s ++ String "." t) = s.
Proof.
  induction s as [|c s IH]; intros Hs.
  - reflexivity.
  - cbn [Spec.all_chars] in Hs. apply andb_true_iff in Hs as [Hc Hs].
    rewrite string_cons_app. cbn [first_field].
    rewrite (numeric_not_dot c Hc). now rewrite IH.
Qed.

Lemma string_app_inv_head (a x y : string) : a ++ x = a ++ y → x = y.
Proof.
  induction a as [|c a IH]; [exact id|].
  rewrite !string_cons_app. intros [= H]. now apply IH.
Qed.

(** Two formatted amounts that are equal have equal parts. *)
Lemma formatted_parts (q1 r1 q2 r2 : Z) :
  FormatInt q1 ++ "." ++ FormatInt r1 = FormatInt q2 ++ "." ++ FormatInt r2 →
  FormatInt q1 = FormatInt q2 ∧ FormatInt r1 = FormatInt r2.
Proof.
  intros Heq.
  change ("." ++ FormatInt r1) with (String "." (FormatInt r1)) in Heq.
  change ("." ++ FormatInt r2) with (String "." (FormatInt r2)) in Heq.
  assert (Hq : FormatInt q1 = FormatInt q2).
  { rewrite <- (first_field_dot (FormatInt q1) (FormatInt r1) (FormatInt_chars q1)).
    rewrite Heq. apply first_field_dot, FormatInt_chars. }
  split; [exact Hq|]. rewrite Hq in Heq.
  apply string_app_inv_head in Heq. now injection Heq.
Qed.

Lemma quot_rem_int (n : Z) :
  minInt ≤ n ≤ maxInt →
  (minInt ≤ n ÷ 100 ≤ maxInt) ∧ (minInt ≤ Z.rem n 100 ≤ maxInt).
Proof.
  unfold minInt, maxInt. intros Hn. pose proof (Z.quot_rem' n 100) as E.
  pose proof (Z.rem_bound_abs n 100 ltac:(lia)). lia.
Qed.

(** X13: the unpadded format is still unambiguous: two inputs that
    parse to different amounts, of either sign, are formatted
    differently. *)
Theorem formatBalance_injective (s1 s2 : string) (n1 n2 : Z) :
  Atoi s1 = Ok n1 → Atoi s2 = Ok n2 →
  logger.formatBalance s1 = logger.formatBalance s2 →
  n1 = n2.
Proof.
  intros H1 H2. unfold logger.formatBalance. rewrite H1, H2. intros [= Heq].
  pose proof (Atoi_range s1 n1 H1) as R1. pose proof (Atoi_range s2 n2 H2) as R2.
  unfold minInt, maxInt in *.
  apply formatted_parts in Heq as [Hq Hr].
  pose proof (Z.quot_rem' n1 100) as E1. pose proof (Z.quot_rem' n2 100) as E2.
  pose proof (quot_rem_int n1 ltac:(unfold minInt, maxInt; lia)) as B1.
  pose proof (quot_rem_int n2 ltac:(unfold minInt, maxInt; lia)) as B2.
  apply FormatInt_inj in Hq; [|tauto..].
  apply FormatInt_inj in Hr; [|tauto..].
  lia.
Qed.

Lemma formatBalance_injective_witness :
  logger.formatBalance "105" = logger.formatBalance "+0105" ∧ 105 = 105.
Proof.
  split; [reflexivity|].
  apply (formatBalance_injective "105" "+0105" 105 105); reflexivity.
Defined.

Lemma FormatInt_opp (k : Z) :
  0 ≤ k →
  FormatInt (- k) = if k =? 0 then "0" else String "-" (FormatInt k).
Proof.
  intros Hk. destruct (Z.eqb_spec k 0) as [->|Hne]; [reflexivity|].
  unfold FormatInt.
  destruct (Z.ltb_spec (- k) 0); [|lia]. destruct (Z.ltb_spec k 0); [lia|].
  now rewrite Z.opp_involutive.
Qed.

(** X14: for an input that parses to a negative amount each part
    carries its own sign: the major part is the numeral of the
    hundreds of the absolute value with a minus sign, or a bare 0, and
    the minor part likewise, so that minus 5 is written as 0, a dot,
    and minus 5. *)
Theorem formatBalance_negative (s : string) (n : Z) :
  Atoi s = Ok n → n < 0 →
  logger.formatBalance s
  = Ok ((if (- n) / 100 =? 0 then "0"
         else String "-" (FormatInt ((- n) / 100)))
        ++ "."
        ++ (if (- n) mod 100 =? 0 then "0"
            else String "-" (FormatInt ((- n) mod 100)))).
Proof.
  intros Hs Hn. unfold logger.formatBalance. rewrite Hs.
  assert (Hq : n ÷ 100 = - ((- n) / 100)).
  { rewrite <- (Z.quot_div_nonneg (- n) 100) by lia.
    rewrite Z.quot_opp_l by lia. lia. }
  assert (Hr : Z.rem n 100 = - ((- n) mod 100)).
  { rewrite <- (Z.rem_mod_nonneg (- n) 100) by lia.
    rewrite Z.rem_opp_l by lia. lia. }
  rewrite Hq, Hr.
  rewrite !FormatInt_opp;
    [reflexivity | apply Z.mod_pos_bound; lia | apply Z.div_pos; lia].
Qed.

Lemma formatBalance_negative_witness :
  logger.formatBalance "-5" = Ok "0.-5"
  ∧ logger.formatBalance "-250" = Ok "-2.-50".
Proof.
  split.
  - apply (formatBalance_negative "-5" (-5)); [reflexivity | lia].
  - apply (formatBalance_negative "-250" (-250)); [reflexivity | lia].
Defined.

Lemma ParseUint_digits_all_digits (s : string) :
  ∀ a v, ParseUint_digits s a = Ok v → Spec.all_chars is_digit s = true.
Proof.
  induction s as [|c s IH]; intros a v; [reflexivity|].
  cbn [ParseUint_digits Spec.all_chars].
  destruct (is_digit c); [|discriminate].
  destruct (_ <=? a); [discriminate|]. destruct (_ <? _); [discriminate|].
  apply IH.
Qed.

Lemma is_digit_val (c : ascii) : is_digit c = true → 0 ≤ digit_val c ≤ 9.
Proof. unfold is_digit, digit_val. lia. Qed.

Lemma is_digit_not_sign (c : ascii) :
  is_digit c = true → Ascii.eqb c "+" = false ∧ Ascii.eqb c "-" = false.
Proof.
  intros Hc. split.
  - destruct (Ascii.eqb_spec c "+") as [->|]; [discriminate Hc|reflexivity].
  - destruct (Ascii.eqb_spec c "-") as [->|]; [discriminate Hc|reflexivity].
Qed.

(** Digits that stay below [2^63] are read without a range error. *)
Lemma ParseUint_digits_short (s : string) :
  ∀ a, Spec.all_chars is_digit s = true → 0 ≤ a →
       (a + 1) * 10 ^ Z.of_nat (String.length s) ≤ 2 ^ 63 →
       ∃ v, ParseUint_digits s a = Ok v ∧ 0 ≤ v < 2 ^ 63.
Proof.
  induction s as [|c s IH]; intros a Hs Ha Hb.
  - exists a. cbn in *. split; [reflexivity|lia].
  - cbn [Spec.all_chars] in Hs. apply andb_true_iff in Hs as [Hc Hs].
    pose proof (is_digit_val c Hc) as Hd.
    cbn [String.length] in Hb. rewrite Nat2Z.inj_succ, Z.pow_succ_r in Hb by lia.
    assert (Hp : 0 < 10 ^ Z.of_nat (String.length s))
      by (apply Z.pow_pos_nonneg; lia).
    cbn [ParseUint_digits]. rewrite Hc, cutoff_value, maxUint64_value.
    assert (Ha' : a * 10 + digit_val c + 1 ≤ (a + 1) * 10) by lia.
    assert (Hlt : (a + 1) * 10 ≤ 2 ^ 63) by nia.
    destruct (Z.leb_spec 1844674407370955162 a); [lia|].
    destruct (Z.ltb_spec 18446744073709551615 (a * 10 + digit_val c)); [lia|].
    apply IH; [exact Hs | lia | nia].
Qed.

(** X15: the formatter accepts an input only if it is a decimal
    numeral with at most one sign in front, and it accepts every such
    input of up to 18 digits; anything else (the empty string, a
    decimal point, a letter, a blank) makes it panic. *)
Theorem formatBalance_accepts_numerals :
  (∀ s out,
     logger.formatBalance s = Ok out →
     ∃ body, Spec.numeral body
             ∧ (s = body ∨ s = String "+" body ∨ s = String "-" body))
  ∧ (∀ body,
       Spec.numeral body → (String.length body ≤ 18)%nat →
       (∃ out, logger.formatBalance body = Ok out)
       ∧ (∃ out, logger.formatBalance (String "+" body) = Ok out)
       ∧ (∃ out, logger.formatBalance (String "-" body) = Ok out)).
Proof.
  split.
  - intros s out. unfold logger.formatBalance, Atoi, ParseInt.
    destruct s as [|c rest]; [discriminate|].
    destruct (ParseUint _) as [un|k] eqn:Hu; [|discriminate]. intros _.
    unfold ParseUint in Hu.
    destruct (Ascii.eqb_spec c "+") as [->|Hplus];
      [|destruct (Ascii.eqb_spec c "-") as [->|Hminus]]; cbn [orb] in Hu.
    + exists rest. split; [|tauto].
      destruct rest; [discriminate|]. split; [discriminate|].
      now apply ParseUint_digits_all_digits in Hu.
    + exists rest. split; [|tauto].
      destruct rest; [discriminate|]. split; [discriminate|].
      now apply ParseUint_digits_all_digits in Hu.
    + exists (String c rest). split; [|tauto]. split; [discriminate|].
      now apply ParseUint_digits_all_digits in Hu.
  - intros body [Hne Hd] Hlen.
    assert (Hparse : ∃ v, ParseUint body = Ok v ∧ 0 ≤ v < 2 ^ 63).
    { unfold ParseUint. destruct body as [|c rest]; [contradiction|].
      apply ParseUint_digits_short; [exact Hd | lia |].
      rewrite Z.mul_1_l.
      transitivity (10 ^ 18); [|vm_compute; discriminate].
      apply Z.pow_le_mono_r; lia. }
    destruct Hparse as (v & Hv & Hr).
    assert (Hpos : ∃ out, logger.formatBalance (String "+" body) = Ok out).
    { unfold logger.formatBalance, Atoi, ParseInt.
      change (Ascii.eqb "+" "+") with true. change (Ascii.eqb "+" "-") with false.
      cbn [orb negb andb]. rewrite Hv.
      destruct (Z.leb_spec (2 ^ 63) v); [lia|]. now eexists. }
    assert (Hneg : ∃ out, logger.formatBalance (String "-" body) = Ok out).
    { unfold logger.formatBalance, Atoi, ParseInt.
      change (Ascii.eqb "-" "+") with false. change (Ascii.eqb "-" "-") with true.
      cbn [orb negb andb]. rewrite Hv.
      destruct (Z.ltb_spec (2 ^ 63) v); [lia|]. now eexists. }
    split; [|split; assumption].
    destruct body as [|c rest]; [contradiction|].
    cbn [Spec.all_chars] in Hd. apply andb_true_iff in Hd as [Hc _].
    destruct (is_digit_not_sign c Hc) as [Hp Hm].
    unfold logger.formatBalance, Atoi, ParseInt. rewrite Hp, Hm.
    cbn [orb negb andb]. rewrite Hv.
    destruct (Z.leb_spec (2 ^ 63) v); [lia|]. now eexists.
Qed.

Lemma formatBalance_accepts_numerals_witness :
  (∃ out, logger.formatBalance "007" = Ok out)
  ∧ ∃ body, Spec.numeral body
            ∧ ("+12" = body ∨ "+12" = String "+" body ∨ "+12" = String "-" body).
Proof.
  destruct formatBalance_accepts_numerals as [Honly Hall].
  split.
  - destruct (Hall "007") as [H _]; [|cbn; lia|exact H].
    split; [discriminate | reflexivity].
  - apply (Honly "+12" "0.12"). reflexivity.
Defined.

(** X16: the timestamp is the decimal numeral of the clock in
    milliseconds: it parses back to the nanoseconds divided by a
    million, for every clock value an [int64] holds. *)
Theorem timestamp_is_milliseconds (w : logger.World) :
  minInt ≤ logger.now w ≤ maxInt →
  Atoi (logger.getUnixTimestamp w) = Ok (logger.now w ÷ 1000000).
Proof.
  intros Hn. unfold logger.getUnixTimestamp. apply Atoi_FormatInt_int.
  unfold minInt, maxInt in *.
  pose proof (Z.quot_rem' (logger.now w) 1000000) as E.
  pose proof (Z.rem_bound_abs (logger.now w) 1000000 ltac:(lia)). lia.
Qed.

Lemma timestamp_is_milliseconds_witness :
  Atoi (logger.getUnixTimestamp Examples.running) = Ok 1700000000123.
Proof.
  apply (timestamp_is_milliseconds Examples.running).
  vm_compute. split; discriminate.
Defined.

End FormatMore.

(** ** Audit logger: failures, composition and what is left alone *)

Section AuditLoggerMore.

Context `{lib : logger.XmlLib}.

Import logger.
Import Spec.

Lemma validateSchema_fs (ele : string) (w : World) :
  fs (validateSchema ele w) = fs w ∧ now (validateSchema ele w) = now w.
Proof. destruct (validateSchema_prints ele w) as [msgs ->]. now split. Qed.

Lemma write_other (w : World) (b name : string) :
  name ≠ logfile →
  os.entries (fs (write logfile b w)) !! name = os.entries (fs w) !! name.
Proof.
  intros Hne. unfold write, os.Write. cbn [fs].
  destruct (os.entries (fs w) !! logfile) as [[data r wr|]|]; try reflexivity.
  cbn [os.entries]. now rewrite lookup_insert_ne by congruence.
Qed.

Lemma write_entry (w : World) (data : string) (r wr : bool) (b : string) :
  os.entries (fs w) !! logfile = Some (os.Regular data r wr) →
  os.entries (fs (write logfile b w)) !! logfile
  = Some (os.Regular (data ++ b) r wr).
Proof.
  intros Hf. unfold write, os.Write. cbn [fs]. rewrite Hf. cbn [os.entries].
  now rewrite lookup_insert_eq.
Qed.

(** A logging call that got as far as the write. *)
Lemma appended_of_prints (w : World) (data : string) (r wr : bool)
    (output : string) (msgs : list string) :
  os.entries (fs w) !! logfile = Some (os.Regular data r wr) →
  validateSchema output (write logfile output w)
  = printed msgs (write logfile output w) →
  appended w output msgs
    (Returned tt (validateSchema output (write logfile output w))).
Proof.
  intros Hf Hv. exists (printed msgs (write logfile output w)), data.
  rewrite Hv. repeat split.
  - unfold log_content. now rewrite Hf.
  - rewrite log_content_printed. now apply (log_content_write w data r wr).
  - cbn. now rewrite <- app_assoc.
Qed.

Lemma print_inj (m1 m2 : string) (w : World) :
  print m1 w = print m2 w → m1 = m2.
Proof.
  unfold print. intros [= H]. apply app_inv_head in H. congruence.
Qed.

Lemma open_failure_message :
  "failed to open file: "
    ++ os.PathError_Error
         {| os.Op := "open"; os.Path := schemaFile; os.Errno_of := os.ENOENT |}
  = "failed to open file: open logger/schema.xsd: no such file or directory".
Proof. reflexivity. Qed.

(** X17: when the schema file is missing, validation is skipped: both
    logging calls still append the record and return, and all that is
    reported is one printed line saying that the schema could not be
    opened. *)
Theorem missing_schema_still_logs (w : World) (data : string) (r : bool) :
  os.entries (fs w) !! logfile = Some (os.Regular data r true) →
  os.entries (fs w) !! schemaFile = None →
  let report :=
    ["failed to open file: open logger/schema.xsd: no such file or directory"] in
  (∀ username price stocksymbol quoteTimestamp cryptokey trans output,
     MarshalIndent
       (quoteEntry w username price stocksymbol quoteTimestamp cryptokey trans)
       prefix indent = Ok output →
     appended w output report
       (LogQuoteServ username price stocksymbol quoteTimestamp cryptokey trans w))
  ∧ (∀ command vars funds output,
       command ∈ recognized →
       fundsOf vars = Ok funds →
       MarshalIndent (commandEntry w command vars funds) prefix indent
       = Ok output →
       appended w output report (LogCommand command vars w)).
Proof.
  intros Hf Hs report.
  assert (Hv : ∀ output,
             validateSchema output (write logfile output w)
             = printed report (write logfile output w)).
  { intros output. unfold validateSchema, os.Open.
    rewrite (write_other w output schemaFile); [|discriminate].
    rewrite Hs. reflexivity. }
  split.
  - intros username price stocksymbol quoteTimestamp cryptokey trans output Hm.
    unfold LogQuoteServ. rewrite (OpenFile_append_ok w data r Hf).
    unfold quoteEntry in Hm. rewrite Hm.
    apply (appended_of_prints w data r true); [exact Hf | apply Hv].
  - intros command vars funds output Hc Hfunds Hm.
    unfold LogCommand. rewrite (valid_recognized command Hc).
    rewrite (OpenFile_append_ok w data r Hf).
    unfold fundsOf in Hfunds. rewrite Hfunds.
    unfold commandEntry in Hm. rewrite Hm.
    apply (appended_of_prints w data r true); [exact Hf | apply Hv].
Qed.

(** X18: [validateSchema] prints the success line, and nothing else,
    exactly when the schema file is read and parsed, the document
    parses and the validator finds no error. *)
Theorem success_line_iff (ele : string) (w : World) :
  validateSchema ele w = print "xml validation successful!" w
  ↔ ∃ schemabuf writable s d,
      os.entries (fs w) !! schemaFile = Some (os.Regular schemabuf true writable)
      ∧ xsd_Parse schemabuf = Ok s
      ∧ libxml2_Parse ele = Ok d
      ∧ Validate s d = None.
Proof.
  split.
  - unfold validateSchema, os.Open, os.ReadAll.
    destruct (os.entries (fs w) !! schemaFile) as [[schemabuf rd wr|]|] eqn:Hf.
    + destruct rd.
      * rewrite Hf.
        destruct (xsd_Parse schemabuf) as [s|err] eqn:Hs;
          [|intros H; apply print_inj in H; discriminate H].
        destruct (libxml2_Parse ele) as [d|err] eqn:Hd;
          [|intros H; apply print_inj in H; discriminate H].
        destruct (Validate s d) as [errs|] eqn:Hv.
        -- rewrite print_errors, print_printed. unfold printed.
           intros [= H]. apply app_inv_head in H.
           destruct errs as [|e [|e' errs]]; try discriminate H.
        -- intros _. now exists schemabuf, wr, s, d.
      * intros H. apply print_inj in H. discriminate H.
    + rewrite Hf. intros H. apply print_inj in H. discriminate H.
    + intros H. apply print_inj in H. discriminate H.
  - intros (schemabuf & wr & s & d & Hf & Hs & Hd & Hv).
    unfold validateSchema, os.Open, os.ReadAll.
    rewrite Hf. cbv beta iota. now rewrite Hf, Hs, Hd, Hv.
Qed.

(** X19: a recognized command whose amount is no number makes
    [LogCommand] panic with the error of the conversion, and the log
    is left as it was although the file had been opened; more
    generally, whenever one of the two logging calls panics the world
    is unchanged: no partial record. *)
Theorem panics_leave_no_record :
  (∀ command vars w val err data r,
     command ∈ recognized →
     os.entries (fs w) !! logfile = Some (os.Regular data r true) →
     vars !! "amount" = Some val →
     strconv.Atoi val = Err err →
     LogCommand command vars w = Panicked (panic_NumError err) w)
  ∧ (∀ command vars w p w',
       LogCommand command vars w = Panicked p w' → w' = w)
  ∧ (∀ username price stocksymbol quoteTimestamp cryptokey trans w p w',
       LogQuoteServ username price stocksymbol quoteTimestamp cryptokey trans w
       = Panicked p w' → w' = w).
Proof.
  split; [|split].
  - intros command vars w val err data r Hc Hf Hval Herr.
    unfold LogCommand. rewrite (valid_recognized command Hc).
    rewrite (OpenFile_append_ok w data r Hf), Hval.
    unfold formatBalance. now rewrite Herr.
  - intros command vars w p w'. unfold LogCommand.
    destruct (validCommands !! command); [|discriminate].
    destruct (os.OpenFile_append _ _); [|congruence].
    destruct (match vars !! "amount" with Some _ => _ | None => _ end);
      [|congruence].
    destruct (MarshalIndent _ _ _); [discriminate|congruence].
  - intros username price stocksymbol quoteTimestamp cryptokey trans w p w'.
    unfold LogQuoteServ.
    destruct (os.OpenFile_append _ _); [|congruence].
    destruct (MarshalIndent _ _ _); [discriminate|congruence].
Qed.

(** X20: [LogCommand] looks up the five keys trans, username, symbol,
    filename and amount and no other: a field under any other key
    changes nothing. *)
Theorem LogCommand_ignores_other_keys (command : Command)
    (vars : gmap string string) (k v : string) (w : World) :
  k ∉ fields_read →
  LogCommand command (<[k := v]> vars) w = LogCommand command vars w.
Proof.
  intros Hk. unfold fields_read in Hk.
  rewrite !not_elem_of_cons in Hk. destruct Hk as (H1 & H2 & H3 & H4 & H5 & _).
  unfold LogCommand, userCommand.
  now rewrite !lookup_insert_ne by assumption.
Qed.

(** X21: two logging calls in a row leave both records in the log, in
    the order of the calls and with nothing between them, and the
    second call's write comes after everything the first call did. *)
Theorem records_are_appended_in_order (w : World) (data : string) (r : bool)
    (command : Command) (vars : gmap string string) (funds out1 : string)
    (username price stocksymbol quoteTimestamp cryptokey trans out2 : string) :
  os.entries (fs w) !! logfile = Some (os.Regular data r true) →
  command ∈ recognized →
  fundsOf vars = Ok funds →
  MarshalIndent (commandEntry w command vars funds) prefix indent = Ok out1 →
  let w1 := world_of (LogCommand command vars w) in
  MarshalIndent
    (quoteEntry w1 username price stocksymbol quoteTimestamp cryptokey trans)
    prefix indent = Ok out2 →
  ∃ w2 msgs1 msgs2,
    LogCommand command vars w = Returned tt w1
    ∧ LogQuoteServ username price stocksymbol quoteTimestamp cryptokey trans w1
      = Returned tt w2
    ∧ log_content w2 = Some ((data ++ out1) ++ out2)
    ∧ trace w2
      = (trace w ++ FileWrite logfile out1 :: (Printf <$> msgs1)
           ++ FileWrite logfile out2 :: (Printf <$> msgs2))%list.
Proof.
  intros Hf Hc Hfunds Hm1 w1 Hm2.
  assert (H1 : LogCommand command vars w
               = Returned tt (validateSchema out1 (write logfile out1 w))).
  { unfold LogCommand. rewrite (valid_recognized command Hc).
    rewrite (OpenFile_append_ok w data r Hf).
    unfold fundsOf in Hfunds. rewrite Hfunds.
    unfold commandEntry in Hm1. now rewrite Hm1. }
  assert (Hw1 : w1 = validateSchema out1 (write logfile out1 w))
    by (unfold w1; now rewrite H1).
  destruct (validateSchema_prints out1 (write logfile out1 w)) as [msgs1 Hp1].
  assert (Hf1 : os.entries (fs w1) !! logfile
                = Some (os.Regular (data ++ out1) r true)).
  { rewrite Hw1, Hp1. apply (write_entry w data r true out1 Hf). }
  destruct (validateSchema_prints out2 (write logfile out2 w1)) as [msgs2 Hp2].
  exists (validateSchema out2 (write logfile out2 w1)), msgs1, msgs2.
  split; [now rewrite H1, Hw1|]. split.
  { unfold LogQuoteServ. rewrite (OpenFile_append_ok w1 _ r Hf1).
    unfold quoteEntry in Hm2. now rewrite Hm2. }
  split.
  - apply log_content_logged. unfold log_content. now rewrite Hf1.
  - rewrite Hp2. cbn [trace printed write]. rewrite Hw1, Hp1.
    cbn [trace printed write]. now rewrite <- !app_assoc.
Qed.

Lemma Create_entry (fs0 fs' : os.FS) :
  os.Create fs0 logfile = Ok fs' →
  (∃ r, os.entries fs' !! logfile = Some (os.Regular EmptyString r true))
  ∧ (∀ name, name ≠ logfile → os.entries fs' !! name = os.entries fs0 !! name).
Proof.
  unfold os.Create.
  destruct (os.entries fs0 !! logfile) as [[data r wr|]|].
  - destruct r, wr; try discriminate. intros [= <-]. cbn [os.entries]. split.
    + exists true. apply lookup_insert_eq.
    + intros name Hne. now rewrite lookup_insert_ne by congruence.
  - discriminate.
  - destruct (os.dir_writable fs0); [|discriminate]. intros [= <-].
    cbn [os.entries]. split.
    + exists true. apply lookup_insert_eq.
    + intros name Hne. now rewrite lookup_insert_ne by congruence.
Qed.

(** X22: after an [InitLogger] whose [os.Create] succeeded, the first
    logging call leaves a log that holds its record and nothing else:
    whatever the file held before is gone. *)
Theorem first_record_after_InitLogger (w : World) (fs' : os.FS)
    (username price stocksymbol quoteTimestamp cryptokey trans output : string) :
  os.Create (fs w) logfile = Ok fs' →
  MarshalIndent
    (quoteEntry (InitLogger w) username price stocksymbol quoteTimestamp
       cryptokey trans)
    prefix indent = Ok output →
  ∃ w2,
    LogQuoteServ username price stocksymbol quoteTimestamp cryptokey trans
      (InitLogger w)
    = Returned tt w2
    ∧ log_content w2 = Some output.
Proof.
  intros Hc Hm.
  destruct (Create_entry (fs w) fs' Hc) as [[r Hr] _].
  assert (Hf : os.entries (fs (InitLogger w)) !! logfile
               = Some (os.Regular EmptyString r true)).
  { unfold InitLogger. now rewrite Hc. }
  exists (validateSchema output (write logfile output (InitLogger w))). split.
  - unfold LogQuoteServ. rewrite (OpenFile_append_ok _ _ r Hf).
    unfold quoteEntry in Hm. now rewrite Hm.
  - change (Some output) with (Some (EmptyString ++ output)).
    apply log_content_logged. unfold log_content. now rewrite Hf.
Qed.

(** X23: [InitLogger] touches the log file only (every other file, the
    clock and the trace stay as they are: it reports nothing), and
    calling it twice is the same as calling it once. *)
Theorem InitLogger_only_resets_log (w : World) :
  (∀ name, name ≠ logfile →
           os.entries (fs (InitLogger w)) !! name = os.entries (fs w) !! name)
  ∧ now (InitLogger w) = now w
  ∧ trace (InitLogger w) = trace w
  ∧ InitLogger (InitLogger w) = InitLogger w.
Proof.
  unfold InitLogger at 1 2 3.
  destruct (os.Create (fs w) logfile) as [fs'|err] eqn:Hc.
  - destruct (Create_entry (fs w) fs' Hc) as [[r Hr] Hother].
    repeat split; try assumption.
    unfold InitLogger. rewrite Hc. cbn [fs now trace].
    unfold os.Create. rewrite Hr.
    assert (Hrw : r = true).
    { unfold os.Create in Hc.
      destruct (os.entries (fs w) !! logfile) as [[data r0 wr|]|].
      - destruct r0, wr; try discriminate Hc. injection Hc as <-.
        cbn [os.entries] in Hr. rewrite lookup_insert_eq in Hr. congruence.
      - discriminate Hc.
      - destruct (os.dir_writable (fs w)); [|discriminate Hc].
        injection Hc as <-. cbn [os.entries] in Hr.
        rewrite lookup_insert_eq in Hr. congruence. }
    subst r. cbn [andb]. f_equal. destruct fs' as [ents dw]. cbn in *.
    f_equal. apply map_eq. intros name.
    destruct (decide (name = logfile)) as [->|Hne].
    + now rewrite lookup_insert_eq.
    + now rewrite lookup_insert_ne by congruence.
  - repeat split. unfold InitLogger. now rewrite Hc, Hc.
Qed.

(** X24: the logging calls write to the log file and to nothing else:
    whatever they do, every other file, the schema among them, and the
    clock are as before. *)
Theorem logging_touches_only_the_log (w : World) :
  (∀ command vars name,
     name ≠ logfile →
     os.entries (fs (world_of (LogCommand command vars w))) !! name
     = os.entries (fs w) !! name)
  ∧ (∀ username price stocksymbol quoteTimestamp cryptokey trans name,
       name ≠ logfile →
       os.entries
         (fs (world_of (LogQuoteServ username price stocksymbol quoteTimestamp
                          cryptokey trans w))) !! name
       = os.entries (fs w) !! name).
Proof.
  split.
  - intros command vars name Hne. unfold LogCommand.
    destruct (validCommands !! command); [|reflexivity].
    destruct (os.OpenFile_append _ _) as [file|err] eqn:Ho; [|reflexivity].
    apply OpenFile_append_handle in Ho as ->.
    destruct (match vars !! "amount" with Some _ => _ | None => _ end);
      [|reflexivity].
    destruct (MarshalIndent _ _ _) as [output|err]; [|reflexivity].
    cbn [world_of]. destruct (validateSchema_fs output (write logfile output w))
      as [-> _].
    now apply write_other.
  - intros username price stocksymbol quoteTimestamp cryptokey trans name Hne.
    unfold LogQuoteServ.
    destruct (os.OpenFile_append _ _) as [file|err] eqn:Ho; [|reflexivity].
    apply OpenFile_append_handle in Ho as ->.
    destruct (MarshalIndent _ _ _) as [output|err]; [|reflexivity].
    cbn [world_of]. destruct (validateSchema_fs output (write logfile output w))
      as [-> _].
    now apply write_other.
Qed.

End AuditLoggerMore.

(** *** The further logger theorems at concrete worlds *)

Lemma missing_schema_still_logs_witness :
  Spec.appended Examples.unschemed "<log>9.50</log>"
    ["failed to open file: open logger/schema.xsd: no such file or directory"]
    (@logger.LogQuoteServ (Examples.stubXml None) "al" "9.50" "AAA" "1700"
       "key" "7" Examples.unschemed).
Proof.
  destruct (@missing_schema_still_logs (Examples.stubXml None)
              Examples.unschemed "<log>old</log>" true)
    as [Hquote _]; [reflexivity | reflexivity |].
  apply Hquote. reflexivity.
Defined.

Lemma panics_leave_no_record_witness :
  @logger.LogCommand (Examples.stubXml None) "BUY"
    (<["amount" := "12.5"]> ∅) Examples.running
  = logger.Panicked
      (logger.panic_NumError
         {| strconv.Func := "Atoi"; strconv.Num := "12.5";
            strconv.Kind := strconv.ErrSyntax |})
      Examples.running.
Proof.
  destruct (@panics_leave_no_record (Examples.stubXml None)) as [Hbad _].
  apply (Hbad "BUY" (<["amount" := "12.5"]> ∅) Examples.running "12.5" _
           "<log>old</log>" true).
  - unfold Spec.recognized. do 2 right. left.
  - reflexivity.
  - reflexivity.
  - reflexivity.
Defined.

Lemma LogCommand_ignores_other_keys_witness :
  @logger.LogCommand (Examples.stubXml None) "BUY"
    (<["note" := "urgent"]> (<["amount" := "12305"]> ∅)) Examples.running
  = @logger.LogCommand (Examples.stubXml None) "BUY"
      (<["amount" := "12305"]> ∅) Examples.running.
Proof.
  apply (@LogCommand_ignores_other_keys (Examples.stubXml None)).
  unfold Spec.fields_read. rewrite !not_elem_of_cons.
  repeat split; try discriminate. apply not_elem_of_nil.
Defined.

Lemma records_are_appended_in_order_witness :
  ∃ w2 msgs1 msgs2,
    @logger.LogQuoteServ (Examples.stubXml None) "al" "9.50" "AAA" "1700" "key"
      "7"
      (logger.world_of
         (@logger.LogCommand (Examples.stubXml None) "QUOTE" ∅ Examples.running))
    = logger.Returned tt w2
    ∧ logger.log_content w2
      = Some (("<log>old</log>" ++ "<log>QUOTE</log>") ++ "<log>9.50</log>")
    ∧ logger.trace w2
      = (logger.trace Examples.running
           ++ logger.FileWrite logger.logfile "<log>QUOTE</log>"
              :: (logger.Printf <$> msgs1)
           ++ logger.FileWrite logger.logfile "<log>9.50</log>"
              :: (logger.Printf <$> msgs2))%list.
Proof.
  destruct (@records_are_appended_in_order (Examples.stubXml None)
              Examples.running "<log>old</log>" true "QUOTE" ∅ EmptyString
              "<log>QUOTE</log>" "al" "9.50" "AAA" "1700" "key" "7"
              "<log>9.50</log>")
    as (w2 & msgs1 & msgs2 & _ & H2 & Hlog & Htrace).
  - reflexivity.
  - unfold Spec.recognized. right. left.
  - reflexivity.
  - reflexivity.
  - reflexivity.
  - exists w2, msgs1, msgs2. repeat split; assumption.
Defined.

Lemma first_record_after_InitLogger_witness :
  ∃ w2,
    @logger.LogQuoteServ (Examples.stubXml None) "al" "9.50" "AAA" "1700" "key"
      "7" (logger.InitLogger Examples.running)
    = logger.Returned tt w2
    ∧ logger.log_content w2 = Some "<log>9.50</log>".
Proof.
  destruct (os.Create (logger.fs Examples.running) logger.logfile)
    as [fs'|err] eqn:Hc; [|discriminate Hc].
  apply (@first_record_after_InitLogger (Examples.stubXml None)
           Examples.running fs' "al" "9.50" "AAA" "1700" "key" "7").
  - exact Hc.
  - reflexivity.
Defined.
